(** * typeorm-entity-type-interface: symbol resolution and type rewriting

    A shallow embedding of the interface generator.  Two generations of the
  command-line script are modelled:

  - [Aggregate]: the single-file generator, which collects enums and class
    names in a first pass and emits, for every named class, a plain
    interface and a [...Data] interface in a second pass;
  - [PerFile]: the one-file-per-class generator, which emits one interface
    per class and computes the import declarations of each file.

  The ts-morph syntax tree is an external library: a declaration is
  modelled by the answers it gives to the queries the script makes
  ([getName], [getType().getText()], [getSymbol()], ...). *)

From Stdlib Require Import String Ascii List Bool Arith Lia.
From stdpp Require Import gmap strings list fin_maps.

Local Open Scope string_scope.
Local Open Scope list_scope.

(** ** JavaScript values used by the script *)

Module Js.

(** Truthiness of a string: only the empty string is falsy. *)
Definition truthy (s : string) : bool :=
  match s with
  | EmptyString => false
  | String _ _ => true
  end.

(** [a || b] on an optional string ([undefined] and [''] are falsy). *)
Definition orElse (a : option string) (b : string) : string :=
  match a with
  | Some v => if truthy v then v else b
  | None => b
  end.

(** [s.startsWith(p)], returning what follows the prefix. *)
Fixpoint dropPrefix (p s : string) : option string :=
  match p with
  | EmptyString => Some s
  | String a p' =>
      match s with
      | EmptyString => None
      | String b s' => if Ascii.eqb a b then dropPrefix p' s' else None
      end
  end.

Definition startsWith (p s : string) : bool :=
  match dropPrefix p s with Some _ => true | None => false end.

(** [s.includes(needle)]. *)
Fixpoint includes (needle s : string) : bool :=
  startsWith needle s ||
  match s with
  | EmptyString => false
  | String _ s' => includes needle s'
  end.

(** [s.endsWith(suffix)]. *)
Fixpoint endsWith (suffix s : string) : bool :=
  match s with
  | EmptyString => String.eqb suffix EmptyString
  | String _ s' => String.eqb suffix s || endsWith suffix s'
  end.

(** A [Map<string, V>] whose iteration order is observed: entries are
    kept in insertion order, and [set] on a present key replaces the value
    in place. *)
Definition OrderedMap (V : Type) : Type := list (string * V).

Fixpoint omap_set {V} (k : string) (v : V) (m : OrderedMap V) : OrderedMap V :=
  match m with
  | [] => [(k, v)]
  | (k', v') :: m' =>
      if String.eqb k' k then (k, v) :: m' else (k', v') :: omap_set k v m'
  end.

Definition omap_has {V} (k : string) (m : OrderedMap V) : bool :=
  existsb (fun kv => String.eqb (fst kv) k) m.

Definition omap_keys {V} (m : OrderedMap V) : list string := map fst m.
Definition omap_values {V} (m : OrderedMap V) : list V := map snd m.

(** A [Set<string>] in insertion order. *)
Definition set_has (x : string) (s : list string) : bool :=
  existsb (String.eqb x) s.

Definition set_add (x : string) (s : list string) : list string :=
  if set_has x s then s else s ++ [x].

End Js.

(** ** The ts-morph declarations the script reads *)

Module TsMorph.

(** A symbol: its name and the kind names of its declarations. *)
Record Symbol := MkSymbol {
  sym_getName : string;
  sym_getDeclarationKinds : list string
}.

(** A type, as seen through [getText], [getSymbol], [isArray],
    [getArrayElementType] and [getTypeArguments]. *)
Local Unset Elimination Schemes.
Inductive Type_ := MkType {
  type_getText : string;
  type_getSymbol : option Symbol;
  type_isArray : bool;
  type_getArrayElementType : option Type_;
  type_getTypeArguments : list Type_
}.
Local Set Elimination Schemes.

(** A type annotation as written: its text and the type it denotes. *)
Record TypeNode := MkTypeNode {
  tn_getText : string;
  tn_getType : Type_
}.

Record PropertyDeclaration := MkProperty {
  prop_getName : string;
  prop_getDecorators : list string;      (* names of the decorators *)
  prop_hasQuestionToken : bool;
  prop_getTypeNode : option TypeNode;
  prop_getType : Type_
}.

Record ClassDeclaration := MkClass {
  class_getName : option string;
  class_getProperties : list PropertyDeclaration
}.

Record EnumMember := MkEnumMember {
  member_getName : string;
  member_getInitializer : option string  (* text of the initializer *)
}.

Record EnumDeclaration := MkEnum {
  enum_getName : string;
  enum_getMembers : list EnumMember
}.

Record SourceFile := MkSourceFile {
  sf_getEnums : list EnumDeclaration;
  sf_getClasses : list ClassDeclaration
}.

(** [t.getSymbol()?.getName()] *)
Definition symbolName (t : Type_) : option string :=
  match type_getSymbol t with
  | Some s => Some (sym_getName s)
  | None => None
  end.

(** Structures handed to [createSourceFile]. *)
Record EnumMemberStructure := MkEnumMemberStructure {
  ems_name : string;
  ems_initializer : option string
}.

Record EnumDeclarationStructure := MkEnumStructure {
  es_name : string;
  es_members : list EnumMemberStructure;
  es_isExported : bool
}.

Record PropertySignatureStructure := MkSignature {
  ps_name : string;
  ps_type : string;
  ps_hasQuestionToken : bool
}.

Record InterfaceDeclarationStructure := MkInterface {
  is_name : string;
  is_properties : list PropertySignatureStructure;
  is_isExported : bool
}.

(** The [kind] tag of a statement structure. *)
Inductive Statement :=
| StEnum (e : EnumDeclarationStructure)
| StInterface (i : InterfaceDeclarationStructure).

End TsMorph.

Import TsMorph.

(** ** Definitions shared by the two generators *)

Definition relationDecorators : list string :=
  ["OneToMany"; "ManyToOne"; "OneToOne"; "ManyToMany"].

(** [decorators.some((dec) => relationDecorators.includes(dec))] *)
Definition hasRelation (decorators : list string) : bool :=
  existsb (fun dec => existsb (String.eqb dec) relationDecorators) decorators.

(** [usePrefix ? `I${className}` : className] *)
Definition interfaceNameOf (usePrefix : bool) (className : string) : string :=
  if usePrefix then "I" +:+ className else className.

(** First pass over one class: [interfaceMap.set(className, interfaceName)]
    when the class has a name. *)
Definition collectClass (usePrefix : bool) (interfaceMap : gmap string string)
    (c : ClassDeclaration) : gmap string string :=
  match class_getName c with
  | Some className =>
      if Js.truthy className
      then <[className := interfaceNameOf usePrefix className]> interfaceMap
      else interfaceMap
  | None => interfaceMap
  end.

(** [interfaceMap.get(relatedEntityName) || relatedEntityName] *)
Definition relatedInterfaceName (interfaceMap : gmap string string)
    (relatedEntityName : string) : string :=
  Js.orElse (interfaceMap !! relatedEntityName) relatedEntityName.

(** [interfaceMap.get(className) as string], for a class collected by the
    first pass.  The lookup cannot miss there ([interfaceName_collected]
    below); the default stands for the unreachable [undefined]. *)
Definition interfaceNameGet (interfaceMap : gmap string string)
    (className : string) : string :=
  default "undefined" (interfaceMap !! className).

(** ** The process: console, file system and exit

    A script run is the trace of its effects, with [None] as result once
    [process.exit] was called: nothing after it is executed.  A run also has
    no result once [createSourceFile] has replaced a source file the project
    read as input (see [replacesInput]): it is followed no further. *)

Module Script.

Inductive Event :=
| MkdirSync (dir : string)
| ConsoleError (msg : string)
| ConsoleLog (msg : string)
| CreateSourceFile (filePath : string) (statements : list Statement)
| AddImportDeclarations (filePath : string) (namedImports : list string)
| SaveSync (filePath : string)
| InputReplaced (filePath : string)
| Exit (code : nat).

Definition M (A : Type) : Type := (list Event * option A)%type.

Definition ret {A} (a : A) : M A := ([], Some a).

Definition bind {A B} (m : M A) (k : A -> M B) : M B :=
  match m with
  | (t, Some a) => let (t', r) := k a in (t ++ t', r)
  | (t, None) => (t, None)
  end.

Definition emit (e : Event) : M unit := ([e], Some tt).

Definition exit {A} (code : nat) : M A := ([Exit code], None).

Definition when (b : bool) (m : M unit) : M unit :=
  if b then m else ret tt.

(** [l.forEach(f)] for an effectful [f]. *)
Fixpoint forEach {A} (f : A -> M unit) (l : list A) : M unit :=
  match l with
  | [] => ret tt
  | x :: l' => bind (f x) (fun _ => forEach f l')
  end.

(** The node and ts-morph services the script calls. *)
Record Host := MkHost {
  path_resolve : string -> string;
  path_join : string -> string -> string;
  path_dirname : string -> string;
  fs_existsSync : string -> bool;
  addSourceFilesAtPaths : string -> list SourceFile;
  (* whether the project, as loaded, holds a source file at this path *)
  project_hasSourceFile : string -> bool
}.

(** [createSourceFile(filePath, ..., { overwrite: true })] on a path where
    the project holds a source file it read as input does not add a file: it
    replaces that source file, whose declarations are forgotten (reading one
    of them afterwards throws) and whose classes no longer exist for the type
    checker, so that the answers recorded in the input stop describing the
    project.  The statements that follow in the same class iteration read no
    declaration and run as usual; at the end of the iteration the run is
    given up, with [InputReplaced] as last event and no result.  The
    single-file scripts create their file after the last declaration has been
    read, and are not concerned. *)
Definition replacesInput (h : Host) (filePath : string) : M unit :=
  if project_hasSourceFile h filePath
  then ([InputReplaced filePath], None)
  else ret tt.

(** [program.opts()] *)
Record Options := MkOptions {
  opt_input : string;
  opt_output : string;
  opt_prefix : bool;     (* [options.prefix !== false] *)
  opt_verbose : bool     (* [options.verbose !== false] *)
}.

Definition isWrite (e : Event) : bool :=
  match e with
  | CreateSourceFile _ _ | AddImportDeclarations _ _ | SaveSync _ => true
  | _ => false
  end.

Definition exitCode (t : list Event) : option nat :=
  match last t with
  | Some (Exit c) => Some c
  | _ => None
  end.

End Script.

Declare Scope script_scope.
Delimit Scope script_scope with script.
Notation "x <- c1 ;; c2" := (Script.bind c1 (fun x => c2))
  (at level 100, c1 at next level, right associativity) : script_scope.
Notation "c1 ;;; c2" := (Script.bind c1 (fun _ => c2))
  (at level 100, right associativity) : script_scope.

(** ** The single-file generator *)

Module Aggregate.

Import Script.

(** State of the first pass: [interfaceMap] and [enumMap]. *)
Record Tables := MkTables {
  interfaceMap : gmap string string;
  enumMap : Js.OrderedMap EnumDeclarationStructure
}.

Definition enumStructureOf (e : EnumDeclaration) : EnumDeclarationStructure :=
  {| es_name := enum_getName e;
     es_members :=
       map (fun member =>
              {| ems_name := member_getName member;
                 ems_initializer := member_getInitializer member |})
           (enum_getMembers e);
     es_isExported := true |}.

(** [enumMap.set(enumName, enumStructure)] when the enum has a name. *)
Definition collectEnum (em : Js.OrderedMap EnumDeclarationStructure)
    (e : EnumDeclaration) : Js.OrderedMap EnumDeclarationStructure :=
  if Js.truthy (enum_getName e)
  then Js.omap_set (enum_getName e) (enumStructureOf e) em
  else em.

(** One source file of the first pass: its enums, then its classes. *)
Definition firstPassFile (usePrefix : bool) (st : Tables) (sf : SourceFile)
    : Tables :=
  {| enumMap := foldl collectEnum (enumMap st) (sf_getEnums sf);
     interfaceMap :=
       foldl (collectClass usePrefix) (interfaceMap st) (sf_getClasses sf) |}.

Definition firstPass (usePrefix : bool) (sourceFiles : list SourceFile)
    : Tables :=
  foldl (firstPassFile usePrefix) {| interfaceMap := ∅; enumMap := [] |}
        sourceFiles.

(** "Handle enum types": a type whose symbol has an enum declaration is
    written as the symbol's name (in both branches of the [enumMap.has]
    test). *)
Definition enumRewrite (em : Js.OrderedMap EnumDeclarationStructure)
    (prop : PropertyDeclaration) (propType : string) : string :=
  match type_getSymbol (prop_getType prop) with
  | Some typeSymbol =>
      if existsb (String.eqb "EnumDeclaration")
                 (sym_getDeclarationKinds typeSymbol)
      then
        let enumName := sym_getName typeSymbol in
        if Js.omap_has enumName em then enumName else enumName
      else propType
  | None => propType
  end.

(** "Lazy relations": the first type argument of the annotated type. *)
Definition lazyRelationType (im : gmap string string)
    (propTypeNode : TypeNode) (propType : string) : string :=
  match type_getTypeArguments (tn_getType propTypeNode) with
  | relatedType :: _ =>
      match symbolName relatedType with
      | Some relatedEntityName =>
          if Js.truthy relatedEntityName
          then "Promise<" +:+ relatedInterfaceName im relatedEntityName
                 +:+ "Data>"
          else "any"
      | None => "any"
      end
  | [] => propType
  end.

(** "Eager relations": the array element type, or the type itself. *)
Definition eagerRelationType (im : gmap string string)
    (prop : PropertyDeclaration) : string :=
  let type := prop_getType prop in
  let elementType :=
    match type_getArrayElementType type with
    | Some t => t
    | None => type
    end in
  match symbolName elementType with
  | Some relatedEntityName =>
      if Js.truthy relatedEntityName
      then
        let relatedInterface := relatedInterfaceName im relatedEntityName in
        if type_isArray type
        then relatedInterface +:+ "Data[]"
        else relatedInterface +:+ "Data"
      else "any"
  | None => "any"
  end.

(** [propTypeNode && propTypeNode.getText().includes('Promise')] *)
Definition promiseNode (prop : PropertyDeclaration) : option TypeNode :=
  match prop_getTypeNode prop with
  | Some propTypeNode =>
      if Js.includes "Promise" (tn_getText propTypeNode)
      then Some propTypeNode
      else None
  | None => None
  end.

(** The final value of [propType] for a property. *)
Definition propertyType (st : Tables) (prop : PropertyDeclaration) : string :=
  let propType :=
    enumRewrite (enumMap st) prop (type_getText (prop_getType prop)) in
  if hasRelation (prop_getDecorators prop)
  then
    match promiseNode prop with
    | Some propTypeNode => lazyRelationType (interfaceMap st) propTypeNode propType
    | None => eagerRelationType (interfaceMap st) prop
    end
  else propType.

Definition propertySignature (st : Tables) (prop : PropertyDeclaration)
    : PropertySignatureStructure :=
  {| ps_name := prop_getName prop;
     ps_type := propertyType st prop;
     ps_hasQuestionToken := prop_hasQuestionToken prop |}.

(** One iteration of [properties.forEach]: the accumulator holds
    [interfaceProperties] and [interfaceDataProperties]. *)
Definition pushProperty (st : Tables)
    (acc : list PropertySignatureStructure * list PropertySignatureStructure)
    (prop : PropertyDeclaration)
    : list PropertySignatureStructure * list PropertySignatureStructure :=
  let sig := propertySignature st prop in
  (if hasRelation (prop_getDecorators prop) then fst acc else fst acc ++ [sig],
   snd acc ++ [sig]).

(** One class of the second pass: pushes [entityInterface] and
    [entityDataInterface], or nothing for a class without a name. *)
Definition generateClass (st : Tables)
    (allInterfaces : list InterfaceDeclarationStructure)
    (c : ClassDeclaration) : list InterfaceDeclarationStructure :=
  match class_getName c with
  | Some className =>
      if Js.truthy className
      then
        let interfaceName := interfaceNameGet (interfaceMap st) className in
        let interfaceNameData := interfaceName +:+ "Data" in
        let props := foldl (pushProperty st) ([], []) (class_getProperties c) in
        allInterfaces ++
          [ {| is_name := interfaceName;
               is_properties := fst props;
               is_isExported := true |};
            {| is_name := interfaceNameData;
               is_properties := snd props;
               is_isExported := true |} ]
      else allInterfaces
  | None => allInterfaces
  end.

Definition secondPass (st : Tables) (sourceFiles : list SourceFile)
    : list InterfaceDeclarationStructure :=
  foldl (fun allInterfaces sf =>
           foldl (generateClass st) allInterfaces (sf_getClasses sf))
        [] sourceFiles.

(** [[...allEnums, ...allInterfaces]] *)
Definition statements (usePrefix : bool) (sourceFiles : list SourceFile)
    : list Statement :=
  let st := firstPass usePrefix sourceFiles in
  let allEnums := Js.omap_values (enumMap st) in
  let allInterfaces := secondPass st sourceFiles in
  map StEnum allEnums ++ map StInterface allInterfaces.

Local Open Scope script_scope.

(** The script, from the parsed options on. *)
Definition main (h : Host) (options : Options) : M unit :=
  let inputPattern := path_resolve h (opt_input options) in
  let outputFilePath := path_resolve h (opt_output options) in
  let usePrefix := opt_prefix options in
  let verbose := opt_verbose options in
  let outputFilePath :=
    if negb (Js.endsWith ".ts" outputFilePath)
    then path_join h outputFilePath "IEntity.ts"
    else outputFilePath in
  let outputDir := path_dirname h outputFilePath in
  when (negb (fs_existsSync h outputDir)) (emit (MkdirSync outputDir)) ;;;
  let sourceFiles := addSourceFilesAtPaths h inputPattern in
  (if Nat.eqb (length sourceFiles) 0
   then
     emit (ConsoleError
             ("No files matched the input pattern: " +:+ inputPattern)) ;;;
     exit 1
   else ret tt) ;;;
  emit (CreateSourceFile outputFilePath (statements usePrefix sourceFiles)) ;;;
  emit (SaveSync outputFilePath) ;;;
  when verbose
    (emit (ConsoleLog ("Generated interfaces file: " +:+ outputFilePath))).

End Aggregate.

(** ** The one-file-per-class generator *)

Module PerFile.

Import Script.

Definition firstPass (usePrefix : bool) (sourceFiles : list SourceFile)
    : gmap string string :=
  foldl (fun im sf => foldl (collectClass usePrefix) im (sf_getClasses sf))
        ∅ sourceFiles.

Definition lazyRelationType (im : gmap string string) (typeNode : TypeNode)
    (propType : string) : string :=
  match type_getTypeArguments (tn_getType typeNode) with
  | relatedType :: _ =>
      match symbolName relatedType with
      | Some relatedEntityName =>
          if Js.truthy relatedEntityName
          then "Promise<" +:+ relatedInterfaceName im relatedEntityName +:+ ">"
          else "any"
      | None => "any"
      end
  | [] => propType
  end.

Definition eagerRelationType (im : gmap string string)
    (prop : PropertyDeclaration) : string :=
  let type := prop_getType prop in
  let elementType :=
    match type_getArrayElementType type with
    | Some t => t
    | None => type
    end in
  match symbolName elementType with
  | Some relatedEntityName =>
      if Js.truthy relatedEntityName
      then
        let relatedInterface := relatedInterfaceName im relatedEntityName in
        if type_isArray type
        then relatedInterface +:+ "[]"
        else relatedInterface
      else "any"
  | None => "any"
  end.

Definition propertyType (im : gmap string string) (prop : PropertyDeclaration)
    : string :=
  let propType := type_getText (prop_getType prop) in
  if hasRelation (prop_getDecorators prop)
  then
    match prop_getTypeNode prop with
    | Some typeNode =>
        if Js.includes "Promise" (tn_getText typeNode)
        then lazyRelationType im typeNode propType
        else eagerRelationType im prop
    | None => eagerRelationType im prop
    end
  else propType.

Definition propertySignature (im : gmap string string)
    (prop : PropertyDeclaration) : PropertySignatureStructure :=
  {| ps_name := prop_getName prop;
     ps_type := propertyType im prop;
     ps_hasQuestionToken := prop_hasQuestionToken prop |}.

(** *** The regular expressions of the imports computation *)

(** The class [[A-Za-z0-9_]]. *)
Definition isWordChar (c : ascii) : bool :=
  let n := nat_of_ascii c in
  Nat.leb 65 n && Nat.leb n 90 || Nat.leb 97 n && Nat.leb n 122
  || Nat.leb 48 n && Nat.leb n 57 || Nat.eqb n 95.

(** [[A-Za-z0-9_]+] is greedy: the longest run of word characters, and
    what follows it. *)
Fixpoint spanWord (s : string) : string * string :=
  match s with
  | String c s' =>
      if isWordChar c
      then let (w, r) := spanWord s' in (String c w, r)
      else (EmptyString, s)
  | EmptyString => (EmptyString, EmptyString)
  end.

(** An optional literal, such as [(?:\[\])?] and [>?]: taken when present. *)
Definition optLit (lit s : string) : string * string :=
  match Js.dropPrefix lit s with
  | Some r => (lit, r)
  | None => (EmptyString, s)
  end.

(** [([A-Za-z0-9_]+)(?:\[\])?>?] anchored at the start of [s]. *)
Definition matchName (s : string) : option string :=
  let (w, r1) := spanWord s in
  if Js.truthy w
  then
    let (brackets, r2) := optLit "[]" r1 in
    let (closing, _) := optLit ">" r2 in
    Some (w +:+ brackets +:+ closing)
  else None.

(** [(?:Promise<)?([A-Za-z0-9_]+)(?:\[\])?>?] anchored at the start of [s]:
    the optional group is tried first, and given up when no name follows. *)
Definition matchAt (s : string) : option string :=
  match Js.dropPrefix "Promise<" s with
  | Some r =>
      match matchName r with
      | Some m => Some ("Promise<" +:+ m)
      | None => matchName s
      end
  | None => matchName s
  end.

(** [s.match(/.../g) || []]: the matches from left to right; after a match
    the search resumes behind it ([skip] counts the characters of the last
    match still to pass). *)
Fixpoint matchFrom (skip : nat) (s : string) : list string :=
  match s with
  | EmptyString => []
  | String _ s' =>
      match skip with
      | S k => matchFrom k s'
      | O =>
          match matchAt s with
          | Some m => m :: matchFrom (String.length m - 1) s'
          | None => matchFrom 0 s'
          end
      end
  end.

Definition matchTypeNames (propType : string) : list string :=
  matchFrom 0 propType.

(** [typeName.replace(/(\[\])|Promise<|>/g, '')] *)
Fixpoint removeFrom (skip : nat) (s : string) : string :=
  match s with
  | EmptyString => EmptyString
  | String c s' =>
      match skip with
      | S k => removeFrom k s'
      | O =>
          if Js.startsWith "[]" s then removeFrom 1 s'
          else if Js.startsWith "Promise<" s then removeFrom 7 s'
          else if Js.startsWith ">" s then removeFrom 0 s'
          else String c (removeFrom 0 s')
      end
  end.

Definition cleanTypeName (typeName : string) : string :=
  removeFrom 0 typeName.

(** [interfaceMap.has(cleanType) && cleanType !== interfaceName] *)
Definition isImport (im : gmap string string) (interfaceName cleanType : string)
    : bool :=
  bool_decide (is_Some (im !! cleanType))
  && negb (String.eqb cleanType interfaceName).

(** The [imports] set of one generated interface. *)
Definition computeImports (im : gmap string string) (interfaceName : string)
    (interfaceProperties : list PropertySignatureStructure) : list string :=
  foldl (fun imports prop =>
           foldl (fun imports typeName =>
                    let cleanType := cleanTypeName typeName in
                    if isImport im interfaceName cleanType
                    then Js.set_add cleanType imports
                    else imports)
                 imports (matchTypeNames (ps_type prop)))
        [] interfaceProperties.

Definition interfaceStructureOf (im : gmap string string)
    (className : string) (c : ClassDeclaration)
    : InterfaceDeclarationStructure :=
  {| is_name := interfaceNameGet im className;
     is_properties := map (propertySignature im) (class_getProperties c);
     is_isExported := true |}.

Local Open Scope script_scope.

(** One class of the second pass: its file, imports and log line.  The
    file is created before the next class is read: see [replacesInput] for
    a path that is a source file of the project. *)
Definition generateClass (h : Host) (im : gmap string string)
    (outputDir : string) (verbose : bool) (c : ClassDeclaration) : M unit :=
  match class_getName c with
  | Some className =>
      if Js.truthy className
      then
        let interfaceStructure := interfaceStructureOf im className c in
        let interfaceName := is_name interfaceStructure in
        let interfaceFilePath :=
          path_join h outputDir (interfaceName +:+ ".ts") in
        emit (CreateSourceFile interfaceFilePath
                [StInterface interfaceStructure]) ;;;
        let imports :=
          computeImports im interfaceName (is_properties interfaceStructure) in
        when (Nat.ltb 0 (length imports))
          (emit (AddImportDeclarations interfaceFilePath imports)) ;;;
        emit (SaveSync interfaceFilePath) ;;;
        when verbose
          (emit (ConsoleLog ("Generated interface for " +:+ className +:+ ": "
                               +:+ interfaceFilePath))) ;;;
        replacesInput h interfaceFilePath
      else ret tt
  | None => ret tt
  end.

Definition main (h : Host) (options : Options) : M unit :=
  let inputPattern := path_resolve h (opt_input options) in
  let outputDir := path_resolve h (opt_output options) in
  let usePrefix := opt_prefix options in
  let verbose := opt_verbose options in
  when (negb (fs_existsSync h outputDir)) (emit (MkdirSync outputDir)) ;;;
  let sourceFiles := addSourceFilesAtPaths h inputPattern in
  (if Nat.eqb (length sourceFiles) 0
   then
     emit (ConsoleError
             ("No files matched the input pattern: " +:+ inputPattern)) ;;;
     exit 1
   else ret tt) ;;;
  let im := firstPass usePrefix sourceFiles in
  forEach (fun sf => forEach (generateClass h im outputDir verbose)
                             (sf_getClasses sf))
          sourceFiles.

End PerFile.

(** ** The single-file generator without enums

    The earlier single-file script: the same two passes with no enum
    collection and no enum rewriting, and an output path that is taken as it
    is.  The relation rewriting is the text of [Aggregate], which is reused. *)

Module Legacy.

Import Script.

Definition firstPass (usePrefix : bool) (sourceFiles : list SourceFile)
    : gmap string string :=
  foldl (fun im sf => foldl (collectClass usePrefix) im (sf_getClasses sf))
        ∅ sourceFiles.

Definition propertyType (im : gmap string string) (prop : PropertyDeclaration)
    : string :=
  let propType := type_getText (prop_getType prop) in
  if hasRelation (prop_getDecorators prop)
  then
    match prop_getTypeNode prop with
    | Some typeNode =>
        if Js.includes "Promise" (tn_getText typeNode)
        then Aggregate.lazyRelationType im typeNode propType
        else Aggregate.eagerRelationType im prop
    | None => Aggregate.eagerRelationType im prop
    end
  else propType.

Definition propertySignature (im : gmap string string)
    (prop : PropertyDeclaration) : PropertySignatureStructure :=
  {| ps_name := prop_getName prop;
     ps_type := propertyType im prop;
     ps_hasQuestionToken := prop_hasQuestionToken prop |}.

Definition pushProperty (im : gmap string string)
    (acc : list PropertySignatureStructure * list PropertySignatureStructure)
    (prop : PropertyDeclaration)
    : list PropertySignatureStructure * list PropertySignatureStructure :=
  let sig := propertySignature im prop in
  (if hasRelation (prop_getDecorators prop) then fst acc else fst acc ++ [sig],
   snd acc ++ [sig]).

Definition generateClass (im : gmap string string)
    (allInterfaces : list InterfaceDeclarationStructure)
    (c : ClassDeclaration) : list InterfaceDeclarationStructure :=
  match class_getName c with
  | Some className =>
      if Js.truthy className
      then
        let interfaceName := interfaceNameGet im className in
        let interfaceNameData := interfaceName +:+ "Data" in
        let props := foldl (pushProperty im) ([], []) (class_getProperties c) in
        allInterfaces ++
          [ {| is_name := interfaceName;
               is_properties := fst props;
               is_isExported := true |};
            {| is_name := interfaceNameData;
               is_properties := snd props;
               is_isExported := true |} ]
      else allInterfaces
  | None => allInterfaces
  end.

Definition secondPass (im : gmap string string) (sourceFiles : list SourceFile)
    : list InterfaceDeclarationStructure :=
  foldl (fun allInterfaces sf =>
           foldl (generateClass im) allInterfaces (sf_getClasses sf))
        [] sourceFiles.

Local Open Scope script_scope.

Definition main (h : Host) (options : Options) : M unit :=
  let inputPattern := path_resolve h (opt_input options) in
  let outputFilePath := path_resolve h (opt_output options) in
  let usePrefix := opt_prefix options in
  let verbose := opt_verbose options in
  let outputDir := path_dirname h outputFilePath in
  when (negb (fs_existsSync h outputDir)) (emit (MkdirSync outputDir)) ;;;
  let sourceFiles := addSourceFilesAtPaths h inputPattern in
  (if Nat.eqb (length sourceFiles) 0
   then
     emit (ConsoleError
             ("No files matched the input pattern: " +:+ inputPattern)) ;;;
     exit 1
   else ret tt) ;;;
  let im := firstPass usePrefix sourceFiles in
  emit (CreateSourceFile outputFilePath
          (map StInterface (secondPass im sourceFiles))) ;;;
  emit (SaveSync outputFilePath) ;;;
  when verbose
    (emit (ConsoleLog ("Generated interfaces file: " +:+ outputFilePath))).

End Legacy.

(** ** The first generator

    [src/index.ts]: one file per class, named after the class, holding the
    interface [I] followed by the class name with every property under the
    text of its type.  There is no symbol table, no relation handling and no
    check of the input.  The file of a class is created before the next
    class is read: see [Script.replacesInput]. *)

Module Simple.

Import Script.

Definition interfaceStructureOf (className : string) (c : ClassDeclaration)
    : InterfaceDeclarationStructure :=
  {| is_name := "I" +:+ className;
     is_properties :=
       map (fun prop =>
              {| ps_name := prop_getName prop;
                 ps_type := type_getText (prop_getType prop);
                 ps_hasQuestionToken := prop_hasQuestionToken prop |})
           (class_getProperties c);
     is_isExported := true |}.

Local Open Scope script_scope.

Definition generateClass (h : Host) (outputDir : string) (c : ClassDeclaration)
    : M unit :=
  match class_getName c with
  | Some className =>
      if Js.truthy className
      then
        let interfaceFilePath := path_join h outputDir (className +:+ ".ts") in
        emit (CreateSourceFile interfaceFilePath
                [StInterface (interfaceStructureOf className c)]) ;;;
        emit (SaveSync interfaceFilePath) ;;;
        replacesInput h interfaceFilePath
      else ret tt
  | None => ret tt
  end.

Definition main (h : Host) (options : Options) : M unit :=
  let inputDir := path_resolve h (opt_input options) in
  let outputDir := path_resolve h (opt_output options) in
  when (negb (fs_existsSync h outputDir)) (emit (MkdirSync outputDir)) ;;;
  let sourceFiles := addSourceFilesAtPaths h (inputDir +:+ "/**/*.ts") in
  forEach (fun sf => forEach (generateClass h outputDir) (sf_getClasses sf))
          sourceFiles.

End Simple.

(** ** Sample declarations *)

Module Samples.

(** A primitive type such as [number]: no symbol. *)
Definition primitive (text : string) : Type_ :=
  MkType text None false None [].

(** A class or interface type written by its name. *)
Definition named (name : string) : Type_ :=
  MkType name (Some (MkSymbol name ["ClassDeclaration"])) false None [].

(** [T[]] *)
Definition arrayOf (t : Type_) : Type_ :=
  MkType (type_getText t +:+ "[]")
         (Some (MkSymbol "Array" ["InterfaceDeclaration"; "VariableDeclaration"]))
         true (Some t) [t].

(** [Promise<T>] *)
Definition promiseOf (t : Type_) : Type_ :=
  MkType ("Promise<" +:+ type_getText t +:+ ">")
         (Some (MkSymbol "Promise" ["InterfaceDeclaration"; "VariableDeclaration"]))
         false None [t].

(** A union such as [A | B]: no symbol. *)
Definition unionOf (a b : Type_) : Type_ :=
  MkType (type_getText a +:+ " | " +:+ type_getText b) None false None [].

(** A property whose annotation is the text of its type. *)
Definition property (name : string) (decorators : list string) (t : Type_)
    : PropertyDeclaration :=
  MkProperty name decorators false (Some (MkTypeNode (type_getText t) t)) t.

Definition User : ClassDeclaration :=
  MkClass (Some "User")
    [ property "id" ["PrimaryGeneratedColumn"] (primitive "number");
      property "profile" ["ManyToOne"] (named "Profile") ].

Definition Profile : ClassDeclaration :=
  MkClass (Some "Profile") [ property "bio" ["Column"] (primitive "string") ].

Definition Team : ClassDeclaration :=
  MkClass (Some "Team")
    [ property "members" ["OneToMany"] (arrayOf (named "Employee")) ].

Definition Employee : ClassDeclaration :=
  MkClass (Some "Employee") [ property "name" ["Column"] (primitive "string") ].

Definition Order : ClassDeclaration :=
  MkClass (Some "Order")
    [ property "id" ["PrimaryGeneratedColumn"] (primitive "number");
      property "customer" ["ManyToOne"] (promiseOf (named "Customer")) ].

Definition Customer : ClassDeclaration :=
  MkClass (Some "Customer") [ property "id" ["PrimaryColumn"] (primitive "number") ].

Definition Contractor : ClassDeclaration :=
  MkClass (Some "Contractor") [ property "agency" ["Column"] (primitive "string") ].

(** A second class called [User], declared in another unit. *)
Definition LegacyUser : ClassDeclaration :=
  MkClass (Some "User") [ property "login" ["Column"] (primitive "string") ].

(** [members: (Employee | Contractor)[]]: an array whose element type is a
    union. *)
Definition Crew : ClassDeclaration :=
  MkClass (Some "Crew")
    [ property "members" ["OneToMany"]
        (arrayOf (unionOf (named "Employee") (named "Contractor"))) ].

(** The double quote character. *)
Definition quote : string := String (ascii_of_nat 34) EmptyString.

(** An enum exported by the module [/src/status]: the text of the type is
    qualified by an [import(...)] of the declaring file, the symbol is named
    [Status]. *)
Definition statusType : Type_ :=
  MkType ("import(" +:+ quote +:+ "/src/status" +:+ quote +:+ ").Status")
         (Some (MkSymbol "Status" ["EnumDeclaration"])) false None [].

Definition statusProperty : PropertyDeclaration :=
  MkProperty "status" ["Column"] false (Some (MkTypeNode "Status" statusType))
             statusType.

Definition Ticket : ClassDeclaration :=
  MkClass (Some "Ticket")
    [ property "id" ["PrimaryGeneratedColumn"] (primitive "number");
      statusProperty ].

(** [owner: User], many-to-one. *)
Definition Account : ClassDeclaration :=
  MkClass (Some "Account")
    [ property "id" ["PrimaryGeneratedColumn"] (primitive "number");
      property "owner" ["ManyToOne"] (named "User") ].

(** A host whose input pattern matches [files]; paths are joined with a
    slash, every directory exists, and no path the scripts write to is the
    path of a source file of the project. *)
Definition host (files : list SourceFile) : Script.Host :=
  {| Script.path_resolve := fun s => "/work/" +:+ s;
     Script.path_join := fun a b => a +:+ "/" +:+ b;
     Script.path_dirname := fun s => "/work/out";
     Script.fs_existsSync := fun _ => true;
     Script.addSourceFilesAtPaths := fun _ => files;
     Script.project_hasSourceFile := fun _ => false |}.

Definition options : Script.Options :=
  {| Script.opt_input := "src/entities/*.ts";
     Script.opt_output := "out/IEntity.ts";
     Script.opt_prefix := true;
     Script.opt_verbose := true |}.

(** A run in place: the output directory is the input directory, in which
    the project holds the source file [User.ts]. *)
Definition inPlaceHost (files : list SourceFile) : Script.Host :=
  {| Script.path_resolve := fun s => "/work/" +:+ s;
     Script.path_join := fun a b => a +:+ "/" +:+ b;
     Script.path_dirname := fun s => "/work";
     Script.fs_existsSync := fun _ => true;
     Script.addSourceFilesAtPaths := fun _ => files;
     Script.project_hasSourceFile := fun p => String.eqb p "/work/src/User.ts" |}.

Definition inPlaceOptions : Script.Options :=
  {| Script.opt_input := "src";
     Script.opt_output := "src";
     Script.opt_prefix := false;
     Script.opt_verbose := false |}.

(** Options of the per-file generator: the output path is a directory. *)
Definition dirOptions : Script.Options :=
  {| Script.opt_input := "src/entities/*.ts";
     Script.opt_output := "out";
     Script.opt_prefix := true;
     Script.opt_verbose := false |}.

(** [note: PromiseNote], one-to-one: the name of the class contains
    [Promise], the type has no type argument. *)
Definition Reminder : ClassDeclaration :=
  MkClass (Some "Reminder")
    [ property "note" ["OneToOne"] (named "PromiseNote") ].

Definition PromiseNote : ClassDeclaration :=
  MkClass (Some "PromiseNote") [ property "text" ["Column"] (primitive "string") ].

(** A class expression without a name. *)
Definition Anonymous : ClassDeclaration :=
  MkClass None [ property "x" ["Column"] (primitive "number") ].

(** Two declarations of the enum [Color], the second with one more member. *)
Definition ColorV1 : EnumDeclaration :=
  MkEnum "Color" [MkEnumMember "Red" None].

Definition ColorV2 : EnumDeclaration :=
  MkEnum "Color" [MkEnumMember "Red" None; MkEnumMember "Green" None].

Definition Size : EnumDeclaration :=
  MkEnum "Size" [MkEnumMember "Small" (Some "1")].

End Samples.

(** ** Vocabulary of the specification *)

(** The classes and enums of the input, in unit order and declaration order
    within a unit. *)
Definition allClasses (sourceFiles : list SourceFile) : list ClassDeclaration :=
  concat (map sf_getClasses sourceFiles).

Definition allEnumDeclarations (sourceFiles : list SourceFile)
    : list EnumDeclaration :=
  concat (map sf_getEnums sourceFiles).

(** The name of a class, when it has a non-empty one. *)
Definition resolvableName (c : ClassDeclaration) : option string :=
  match class_getName c with
  | Some n => if Js.truthy n then Some n else None
  | None => None
  end.

(** The class names seen, with repetitions. *)
Definition classNames (cs : list ClassDeclaration) : list string :=
  omap resolvableName cs.

(** The name of the entity a type refers to, when its symbol gives one. *)
Definition targetName (t : Type_) : option string :=
  match symbolName t with
  | Some n => if Js.truthy n then Some n else None
  | None => None
  end.

(** A property is relation-annotated when one of its decorators is one of
    the four relation markers. *)
Definition relationAnnotated (prop : PropertyDeclaration) : Prop :=
  ∃ dec, dec ∈ prop_getDecorators prop ∧ dec ∈ relationDecorators.

Definition isPlain (prop : PropertyDeclaration) : bool :=
  negb (hasRelation (prop_getDecorators prop)).

(** The type of a symbol is an enum when one of its declarations is an
    enum declaration. *)
Definition enumSymbol (t : Type_) : option string :=
  match type_getSymbol t with
  | Some s =>
      if existsb (String.eqb "EnumDeclaration") (sym_getDeclarationKinds s)
      then Some (sym_getName s)
      else None
  | None => None
  end.

(** The names of a list in the order of their first occurrence. *)
Fixpoint firstSeen (l : list string) : list string :=
  match l with
  | [] => []
  | x :: l' => x :: filter (fun y => y ≠ x) (firstSeen l')
  end.

(** The plain and the full shape of a class, as the specification
    describes them. *)
Definition shapesOf (usePrefix : bool) (st : Aggregate.Tables)
    (c : ClassDeclaration) : list InterfaceDeclarationStructure :=
  match resolvableName c with
  | Some n =>
      [ {| is_name := interfaceNameOf usePrefix n;
           is_properties :=
             map (Aggregate.propertySignature st)
                 (List.filter isPlain (class_getProperties c));
           is_isExported := true |};
        {| is_name := interfaceNameOf usePrefix n +:+ "Data";
           is_properties :=
             map (Aggregate.propertySignature st) (class_getProperties c);
           is_isExported := true |} ]
  | None => []
  end.

(** A signature carries the name and the optional flag of its property,
    and the rewritten type. *)
Definition signatureOf (st : Aggregate.Tables)
    (sig : PropertySignatureStructure) (prop : PropertyDeclaration) : Prop :=
  ps_name sig = prop_getName prop
  ∧ ps_hasQuestionToken sig = prop_hasQuestionToken prop
  ∧ ps_type sig = Aggregate.propertyType st prop.

(** The non-empty enum names of the input, with repetitions. *)
Definition enumNames (es : list EnumDeclaration) : list string :=
  filter (fun n => n ≠ "") (map enum_getName es).

(** *** Vocabulary of the further properties *)

(** The paths given to [saveSync] and to [createSourceFile], in order. *)
Definition savedFiles (t : list Script.Event) : list string :=
  omap (fun e => match e with Script.SaveSync p => Some p | _ => None end) t.

Definition createdFiles (t : list Script.Event) : list string :=
  omap (fun e => match e with
                 | Script.CreateSourceFile p _ => Some p
                 | _ => None
                 end) t.

(** An identifier: a non-empty string of the characters [[A-Za-z0-9_]]. *)
Fixpoint allWord (s : string) : bool :=
  match s with
  | EmptyString => true
  | String c s' => PerFile.isWordChar c && allWord s'
  end.

Definition identifier (s : string) : Prop := s ≠ "" ∧ allWord s = true.

(** No character of the string is [<]. *)
Fixpoint noLt (s : string) : bool :=
  match s with
  | EmptyString => true
  | String c s' => negb (Ascii.eqb c "<") && noLt s'
  end.

(** The last enum declaration of a given name. *)
Definition lastEnumNamed (k : string) (es : list EnumDeclaration)
    : option EnumDeclaration :=
  last (filter (fun e => enum_getName e = k) es).

(** No property of the class has a type whose symbol is an enum. *)
Definition enumFree (c : ClassDeclaration) : Prop :=
  ∀ p, p ∈ class_getProperties c → enumSymbol (prop_getType p) = None.

(** The entity a relation property of the per-file generator points to:
    the first type argument when the annotation mentions [Promise], the
    array element type or the type itself otherwise. *)
Definition relationTarget (prop : PropertyDeclaration) : option string :=
  match Aggregate.promiseNode prop with
  | Some typeNode =>
      match type_getTypeArguments (tn_getType typeNode) with
      | relatedType :: _ => targetName relatedType
      | [] => None
      end
  | None =>
      targetName (default (prop_getType prop)
                          (type_getArrayElementType (prop_getType prop)))
  end.

(** What follows a run of word characters: nothing, or a character that is
    not a word character. *)
Definition wordEnd (r : string) : Prop :=
  match r with
  | EmptyString => True
  | String c _ => PerFile.isWordChar c = false
  end.

(** The optional tail [(?:\[\])?>?] of a match. *)
Definition isTail (t : string) : Prop :=
  t = "" ∨ t = "[]" ∨ t = ">" ∨ t = "[]>".

(** ** Properties *)

(** *** JavaScript helpers *)

Lemma truthy_nonempty (s : string) : Js.truthy s = true ↔ s ≠ "".
Proof. destruct s; simpl; split; congruence. Qed.

Lemma hasRelation_spec (prop : PropertyDeclaration) :
  hasRelation (prop_getDecorators prop) = true ↔ relationAnnotated prop.
Proof.
  unfold hasRelation, relationAnnotated. rewrite existsb_exists. split.
  - intros (dec & Hin & Hrel). exists dec. split; [by apply list_elem_of_In|].
    apply existsb_exists in Hrel as (r & Hr & Heq).
    apply String.eqb_eq in Heq. subst. by apply list_elem_of_In.
  - intros (dec & Hin & Hrel). exists dec. split; [by apply list_elem_of_In|].
    apply existsb_exists. exists dec. split; [by apply list_elem_of_In|].
    apply String.eqb_refl.
Qed.

Lemma isPlain_spec (prop : PropertyDeclaration) :
  isPlain prop = true ↔ ¬ relationAnnotated prop.
Proof.
  unfold isPlain. rewrite <- hasRelation_spec.
  destruct (hasRelation _); simpl; split; congruence.
Qed.

Lemma foldl_concat {A B C} (f : A → B → A) (g : C → list B) (l : list C) (a : A) :
  foldl (fun acc x => foldl f acc (g x)) a l = foldl f a (concat (map g l)).
Proof.
  revert a. induction l as [|x l IH]; intros a; simpl; [done|].
  by rewrite IH, foldl_app.
Qed.

(** *** First pass *)

Lemma firstPass_interfaceMap usePrefix sourceFiles :
  Aggregate.interfaceMap (Aggregate.firstPass usePrefix sourceFiles)
  = foldl (collectClass usePrefix) ∅ (allClasses sourceFiles).
Proof.
  unfold Aggregate.firstPass, allClasses.
  rewrite <- foldl_concat.
  generalize (∅ : gmap string string) ([] : Js.OrderedMap EnumDeclarationStructure).
  induction sourceFiles as [|sf l IH]; intros im em; simpl; [done|].
  apply IH.
Qed.

Lemma firstPass_enumMap usePrefix sourceFiles :
  Aggregate.enumMap (Aggregate.firstPass usePrefix sourceFiles)
  = foldl Aggregate.collectEnum [] (allEnumDeclarations sourceFiles).
Proof.
  unfold Aggregate.firstPass, allEnumDeclarations.
  rewrite <- foldl_concat.
  generalize (∅ : gmap string string) ([] : Js.OrderedMap EnumDeclarationStructure).
  induction sourceFiles as [|sf l IH]; intros im em; simpl; [done|].
  apply IH.
Qed.

Lemma collectClass_resolvable usePrefix im c :
  collectClass usePrefix im c
  = match resolvableName c with
    | Some n => <[n := interfaceNameOf usePrefix n]> im
    | None => im
    end.
Proof.
  unfold collectClass, resolvableName.
  destruct (class_getName c) as [n|]; [|done]. by destruct (Js.truthy n).
Qed.

Lemma collect_lookup usePrefix cs (im : gmap string string) n :
  foldl (collectClass usePrefix) im cs !! n
  = if bool_decide (n ∈ classNames cs)
    then Some (interfaceNameOf usePrefix n)
    else im !! n.
Proof.
  revert im. induction cs as [|c cs IH]; intros im; simpl; [done|].
  rewrite IH, collectClass_resolvable. unfold classNames. simpl.
  destruct (resolvableName c) as [k|]; simpl; [|done].
  fold (classNames cs).
  destruct (decide (n = k)) as [->|Hne].
  - rewrite lookup_insert_eq.
    rewrite (bool_decide_eq_true_2 (k ∈ k :: classNames cs)) by apply list_elem_of_here.
    by case_bool_decide.
  - rewrite lookup_insert_ne by done.
    destruct (decide (n ∈ classNames cs)) as [Hin|Hnin].
    + rewrite !bool_decide_eq_true_2; [done|by apply list_elem_of_further|done].
    + rewrite !bool_decide_eq_false_2; [done| |done].
      rewrite elem_of_cons. by intros [?|?].
Qed.

Lemma interfaceNameOf_inj usePrefix n1 n2 :
  interfaceNameOf usePrefix n1 = interfaceNameOf usePrefix n2 → n1 = n2.
Proof.
  unfold interfaceNameOf. destruct usePrefix; [|done].
  intros H. by injection H.
Qed.

Lemma interfaceNameOf_truthy usePrefix n :
  Js.truthy n = true → Js.truthy (interfaceNameOf usePrefix n) = true.
Proof. unfold interfaceNameOf. by destruct usePrefix. Qed.

Lemma classNames_truthy cs n : n ∈ classNames cs → Js.truthy n = true.
Proof.
  unfold classNames. rewrite list_elem_of_omap. intros (c & _ & Hc).
  unfold resolvableName in Hc. destruct (class_getName c) as [k|]; [|done].
  destruct (Js.truthy k) eqn:E; congruence.
Qed.

(** C6. The symbol table of the first pass is total and injective over
    the class names seen: every class with a non-empty name is mapped to
    exactly one shape name, the letter [I] followed by its name when
    prefixing and its name otherwise; the table has no other entry (a class
    without a name adds none and leaves the table as it is); and two distinct
    class names never get the same shape name. *)
Theorem symbol_table_total_injective (usePrefix : bool)
    (sourceFiles : list SourceFile) :
  let im := Aggregate.interfaceMap (Aggregate.firstPass usePrefix sourceFiles) in
  (∀ c n, c ∈ allClasses sourceFiles → class_getName c = Some n → n ≠ "" →
          im !! n = Some (if usePrefix then "I" +:+ n else n))
  ∧ (∀ n s, im !! n = Some s →
            n ≠ "" ∧ s = (if usePrefix then "I" +:+ n else n)
            ∧ ∃ c, c ∈ allClasses sourceFiles ∧ class_getName c = Some n)
  ∧ (∀ n1 n2 s, im !! n1 = Some s → im !! n2 = Some s → n1 = n2)
  ∧ (∀ c (m : gmap string string),
       class_getName c = None ∨ class_getName c = Some "" →
       collectClass usePrefix m c = m).
Proof.
  intros im. subst im. rewrite firstPass_interfaceMap.
  change (if usePrefix then "I" +:+ ?n else ?n) with (interfaceNameOf usePrefix n).
  assert (Hchar : ∀ n s,
    foldl (collectClass usePrefix) ∅ (allClasses sourceFiles) !! n = Some s →
    n ∈ classNames (allClasses sourceFiles) ∧ s = interfaceNameOf usePrefix n).
  { intros n s. rewrite collect_lookup. case_bool_decide; [|by rewrite lookup_empty].
    intros [= <-]. done. }
  split; [|split; [|split]].
  - intros c n Hc Hn Hne. rewrite collect_lookup.
    rewrite bool_decide_eq_true_2; [done|].
    unfold classNames. apply list_elem_of_omap. exists c. split; [done|].
    unfold resolvableName. rewrite Hn.
    apply truthy_nonempty in Hne. by rewrite Hne.
  - intros n s H. apply Hchar in H as [Hin ->].
    split; [|split; [done|]].
    + apply classNames_truthy in Hin. by apply truthy_nonempty.
    + unfold classNames in Hin.
      apply list_elem_of_omap in Hin as (c & Hc & Hr). exists c. split; [done|].
      unfold resolvableName in Hr. destruct (class_getName c) as [k|]; [|done].
      destruct (Js.truthy k); congruence.
  - intros n1 n2 s H1 H2. apply Hchar in H1 as [_ ->]. apply Hchar in H2 as [_ E].
    by apply interfaceNameOf_inj in E.
  - intros c m [Hn|Hn]; unfold collectClass; by rewrite Hn.
Qed.

(** *** Second pass: assembling the shapes *)

Lemma pushProperty_foldl st props a b :
  foldl (Aggregate.pushProperty st) (a, b) props
  = (a ++ map (Aggregate.propertySignature st) (List.filter isPlain props),
     b ++ map (Aggregate.propertySignature st) props).
Proof.
  revert a b. induction props as [|p props IH]; intros a b; simpl.
  - by rewrite !app_nil_r.
  - unfold Aggregate.pushProperty at 2. simpl. unfold isPlain at 1.
    destruct (hasRelation (prop_getDecorators p)); simpl;
      rewrite IH; by rewrite <- ?app_assoc.
Qed.

Lemma generateClass_shapes usePrefix st acc c :
  (∀ n, resolvableName c = Some n →
        Aggregate.interfaceMap st !! n = Some (interfaceNameOf usePrefix n)) →
  Aggregate.generateClass st acc c = acc ++ shapesOf usePrefix st c.
Proof.
  intros Hmap. unfold Aggregate.generateClass, shapesOf.
  unfold resolvableName in *.
  destruct (class_getName c) as [n|]; [|by rewrite app_nil_r].
  destruct (Js.truthy n); [|by rewrite app_nil_r].
  unfold interfaceNameGet. rewrite (Hmap n eq_refl). simpl.
  by rewrite pushProperty_foldl.
Qed.

Lemma generateClass_foldl usePrefix st cs acc :
  (∀ c n, c ∈ cs → resolvableName c = Some n →
          Aggregate.interfaceMap st !! n = Some (interfaceNameOf usePrefix n)) →
  foldl (Aggregate.generateClass st) acc cs
  = acc ++ concat (map (shapesOf usePrefix st) cs).
Proof.
  revert acc. induction cs as [|c cs IH]; intros acc Hmap; simpl.
  - by rewrite app_nil_r.
  - rewrite (generateClass_shapes usePrefix).
    + rewrite IH, <- app_assoc; [done|].
      intros c' n Hc'. apply Hmap. by apply list_elem_of_further.
    + intros n. apply Hmap. apply list_elem_of_here.
Qed.

Lemma interfaceName_collected usePrefix sourceFiles c n :
  c ∈ allClasses sourceFiles → resolvableName c = Some n →
  Aggregate.interfaceMap (Aggregate.firstPass usePrefix sourceFiles) !! n
  = Some (interfaceNameOf usePrefix n).
Proof.
  intros Hc Hn. rewrite firstPass_interfaceMap, collect_lookup.
  rewrite bool_decide_eq_true_2; [done|].
  unfold classNames. apply list_elem_of_omap. by exists c.
Qed.

Lemma secondPass_shapes usePrefix sourceFiles :
  let st := Aggregate.firstPass usePrefix sourceFiles in
  Aggregate.secondPass st sourceFiles
  = concat (map (shapesOf usePrefix st) (allClasses sourceFiles)).
Proof.
  intros st. unfold Aggregate.secondPass.
  rewrite (foldl_concat (Aggregate.generateClass st) sf_getClasses).
  fold (allClasses sourceFiles).
  rewrite (generateClass_foldl usePrefix); [done|].
  intros c n. apply interfaceName_collected.
Qed.

Lemma resolvableName_Some c n :
  class_getName c = Some n → n ≠ "" → resolvableName c = Some n.
Proof.
  intros Hn Hne. unfold resolvableName. rewrite Hn.
  apply truthy_nonempty in Hne. by rewrite Hne.
Qed.

Lemma signatures_Forall2 st props :
  Forall2 (signatureOf st) (map (Aggregate.propertySignature st) props) props.
Proof.
  induction props as [|p props IH]; simpl; constructor; [|done].
  by repeat split.
Qed.

(** C5. Every named input class contributes exactly two shape
    definitions, named by its entry of the symbol table and by that entry
    followed by [Data]; the plain shape has exactly the properties that
    carry no relation marker, the full shape has every property, both in
    declaration order and with each property's name and optional flag
    unchanged; a class without a name contributes nothing. *)
Theorem two_shapes_per_class (usePrefix : bool) (sourceFiles : list SourceFile) :
  let st := Aggregate.firstPass usePrefix sourceFiles in
  Aggregate.secondPass st sourceFiles
  = concat (map (shapesOf usePrefix st) (allClasses sourceFiles))
  ∧ (∀ c, c ∈ allClasses sourceFiles →
          (class_getName c = None ∨ class_getName c = Some "") →
          shapesOf usePrefix st c = [])
  ∧ (∀ c n, c ∈ allClasses sourceFiles → class_getName c = Some n → n ≠ "" →
       ∃ plain full,
         shapesOf usePrefix st c = [plain; full]
         ∧ Aggregate.interfaceMap st !! n = Some (is_name plain)
         ∧ is_name plain = interfaceNameOf usePrefix n
         ∧ is_name full = is_name plain +:+ "Data"
         ∧ Forall2 (signatureOf st) (is_properties plain)
                   (List.filter isPlain (class_getProperties c))
         ∧ Forall2 (signatureOf st) (is_properties full)
                   (class_getProperties c))
  ∧ (∀ prop, isPlain prop = true ↔ ¬ relationAnnotated prop).
Proof.
  intros st. split; [apply secondPass_shapes|]. split; [|split].
  - intros c _ [Hn|Hn]; unfold shapesOf, resolvableName; by rewrite Hn.
  - intros c n Hc Hn Hne.
    pose proof (resolvableName_Some c n Hn Hne) as Hr.
    unfold shapesOf. rewrite Hr. eexists _, _. split; [reflexivity|]. simpl.
    split; [by apply interfaceName_collected with c|].
    repeat split; apply signatures_Forall2.
  - apply isPlain_spec.
Qed.

(** *** Enums: insertion order of the enum map *)

Lemma omap_set_keys {V} k (v : V) (m : Js.OrderedMap V) :
  Js.omap_keys (Js.omap_set k v m)
  = if bool_decide (k ∈ Js.omap_keys m) then Js.omap_keys m
    else Js.omap_keys m ++ [k].
Proof.
  induction m as [|[k' v'] m IH]; simpl; [done|].
  destruct (String.eqb_spec k' k) as [->|Hne]; simpl.
  - by rewrite bool_decide_eq_true_2 by apply list_elem_of_here.
  - fold (Js.omap_keys (Js.omap_set k v m)). rewrite IH.
    fold (Js.omap_keys m).
    destruct (decide (k ∈ Js.omap_keys m)) as [Hin|Hnin].
    + rewrite !bool_decide_eq_true_2; [done|by apply list_elem_of_further|done].
    + rewrite !bool_decide_eq_false_2; [done| |done].
      rewrite elem_of_cons. intros [?|?]; [by subst|done].
Qed.

Lemma firstSeen_filter (P : string → Prop) `{!∀ x, Decision (P x)} l :
  filter P (firstSeen l) = firstSeen (filter P l).
Proof.
  induction l as [|y l IH]; simpl; [done|].
  rewrite !filter_cons. destruct (decide (P y)) as [Hy|Hy]; simpl.
  - f_equal. rewrite <- IH, !list_filter_filter.
    apply list_filter_iff. tauto.
  - rewrite <- IH, list_filter_filter. apply list_filter_iff.
    intros x. split; [tauto|]. intros Hx. split; [done|]. by intros ->.
Qed.

Lemma collectEnum_keys es (em : Js.OrderedMap EnumDeclarationStructure) :
  Js.omap_keys (foldl Aggregate.collectEnum em es)
  = Js.omap_keys em
    ++ firstSeen (filter (fun n => n ∉ Js.omap_keys em) (enumNames es)).
Proof.
  revert em. induction es as [|e es IH]; intros em; simpl.
  - by rewrite app_nil_r.
  - unfold enumNames. simpl. rewrite filter_cons. fold (enumNames es).
    destruct (Js.truthy (enum_getName e)) eqn:Ht.
    + assert (Aggregate.collectEnum em e
              = Js.omap_set (enum_getName e) (Aggregate.enumStructureOf e) em)
        as -> by (unfold Aggregate.collectEnum; by rewrite Ht).
      apply truthy_nonempty in Ht. rewrite decide_True by done.
      rewrite IH, omap_set_keys, filter_cons.
      destruct (decide (enum_getName e ∈ Js.omap_keys em)) as [Hin|Hnin].
      * rewrite bool_decide_eq_true_2 by done.
        by rewrite decide_False by tauto.
      * rewrite bool_decide_eq_false_2 by done.
        rewrite decide_True by done. simpl. rewrite <- app_assoc. simpl.
        do 2 f_equal. rewrite firstSeen_filter, list_filter_filter.
        f_equal. apply list_filter_iff. intros x.
        rewrite not_elem_of_app, list_elem_of_singleton. tauto.
    + assert (Aggregate.collectEnum em e = em)
        as -> by (unfold Aggregate.collectEnum; by rewrite Ht).
      rewrite decide_False; [apply IH|].
      intros Hne. apply truthy_nonempty in Hne. congruence.
Qed.

Lemma omap_set_named k (v : EnumDeclarationStructure) m :
  es_name v = k →
  Forall (fun kv => es_name (snd kv) = fst kv) m →
  Forall (fun kv => es_name (snd kv) = fst kv) (Js.omap_set k v m).
Proof.
  intros Hv. induction 1 as [|[k' v'] m Hkv Hm IH]; simpl.
  - by repeat constructor.
  - destruct (String.eqb k' k); by constructor.
Qed.

Lemma collectEnum_named es em :
  Forall (fun kv => es_name (snd kv) = fst kv) em →
  Forall (fun kv => es_name (snd kv) = fst kv) (foldl Aggregate.collectEnum em es).
Proof.
  revert em. induction es as [|e es IH]; intros em Hem; simpl; [done|].
  apply IH. unfold Aggregate.collectEnum.
  destruct (Js.truthy (enum_getName e)); [|done].
  by apply omap_set_named.
Qed.

Lemma filter_all (P : string → Prop) `{!∀ x, Decision (P x)} (l : list string) :
  (∀ x, P x) → filter P l = l.
Proof.
  intros HP. induction l as [|x l IH]; [done|].
  by rewrite filter_cons_True, IH.
Qed.

Lemma allEnums_names usePrefix sourceFiles :
  map es_name
      (Js.omap_values (Aggregate.enumMap (Aggregate.firstPass usePrefix sourceFiles)))
  = firstSeen (enumNames (allEnumDeclarations sourceFiles)).
Proof.
  rewrite firstPass_enumMap.
  pose proof (collectEnum_keys (allEnumDeclarations sourceFiles) []) as Hk.
  simpl in Hk. rewrite filter_all in Hk by (intros; apply not_elem_of_nil).
  rewrite <- Hk. clear Hk.
  pose proof (collectEnum_named (allEnumDeclarations sourceFiles) [] (Forall_nil_2 _)) as Hn.
  unfold Js.omap_values, Js.omap_keys.
  induction Hn as [|kv m Hkv _ IH]; simpl; [done|]. by f_equal.
Qed.

(** C7. The statements of the generated file are the enum declarations
    followed by the shape definitions; the enums come in the order in which
    their names are first seen across the input units, the shapes in unit
    order and class declaration order, each plain shape immediately followed
    by the full shape of the same class. *)
Theorem output_order (usePrefix : bool) (sourceFiles : list SourceFile) :
  let st := Aggregate.firstPass usePrefix sourceFiles in
  ∃ allEnums allInterfaces,
    Aggregate.statements usePrefix sourceFiles
    = map StEnum allEnums ++ map StInterface allInterfaces
    ∧ map es_name allEnums
      = firstSeen (enumNames (allEnumDeclarations sourceFiles))
    ∧ allInterfaces
      = concat (map (shapesOf usePrefix st) (allClasses sourceFiles))
    ∧ (∀ c, shapesOf usePrefix st c = []
            ∨ ∃ plain full,
                shapesOf usePrefix st c = [plain; full]
                ∧ is_name full = is_name plain +:+ "Data"
                ∧ is_properties full
                  = map (Aggregate.propertySignature st) (class_getProperties c)).
Proof.
  intros st. eexists _, _. split; [reflexivity|]. split; [|split].
  - apply allEnums_names.
  - apply secondPass_shapes.
  - intros c. unfold shapesOf. destruct (resolvableName c); [|by left].
    right. by eexists _, _.
Qed.

(** C10. When two input classes share a name, the second [set] of the
    first pass overwrites the first, so the symbol table keeps a single
    entry for the name; both classes still push their plain and full shape,
    so the output holds two shape definitions with the same name (and two
    more with the same [Data] name). *)
Theorem duplicate_class_names (usePrefix : bool) (sourceFiles : list SourceFile)
    (cs1 cs2 cs3 : list ClassDeclaration) (c1 c2 : ClassDeclaration) (n : string) :
  allClasses sourceFiles = cs1 ++ c1 :: cs2 ++ c2 :: cs3 →
  class_getName c1 = Some n → class_getName c2 = Some n → n ≠ "" →
  let st := Aggregate.firstPass usePrefix sourceFiles in
  (∀ m : gmap string string,
     collectClass usePrefix (collectClass usePrefix m c1) c2
     = collectClass usePrefix m c2)
  ∧ Aggregate.interfaceMap st !! n = Some (interfaceNameOf usePrefix n)
  ∧ ∃ l1 l2 l3 plain1 full1 plain2 full2,
      Aggregate.secondPass st sourceFiles
      = l1 ++ plain1 :: full1 :: l2 ++ plain2 :: full2 :: l3
      ∧ is_name plain1 = interfaceNameOf usePrefix n
      ∧ is_name plain2 = interfaceNameOf usePrefix n
      ∧ is_name full1 = interfaceNameOf usePrefix n +:+ "Data"
      ∧ is_name full2 = interfaceNameOf usePrefix n +:+ "Data"
      ∧ is_properties full1
        = map (Aggregate.propertySignature st) (class_getProperties c1)
      ∧ is_properties full2
        = map (Aggregate.propertySignature st) (class_getProperties c2).
Proof.
  intros Hsplit H1 H2 Hne st.
  pose proof (resolvableName_Some c1 n H1 Hne) as Hr1.
  pose proof (resolvableName_Some c2 n H2 Hne) as Hr2.
  split; [|split].
  - intros m. rewrite !collectClass_resolvable, Hr1, Hr2.
    apply insert_insert_eq.
  - apply interfaceName_collected with c1; [|done].
    rewrite Hsplit. rewrite elem_of_app. right. apply list_elem_of_here.
  - subst st. rewrite secondPass_shapes, Hsplit.
    rewrite map_app, concat_app. simpl. rewrite map_app, concat_app. simpl.
    unfold shapesOf at 2 4. rewrite Hr1, Hr2. simpl.
    eexists _, _, _, _, _, _, _. split; [reflexivity|]. by simpl.
Qed.

Lemma duplicate_class_names_witness :
  let sourceFiles :=
    [MkSourceFile [] [Samples.User; Samples.Profile];
     MkSourceFile [] [Samples.LegacyUser]] in
  let st := Aggregate.firstPass true sourceFiles in
  Aggregate.interfaceMap st !! "User" = Some "IUser"
  ∧ ∃ l1 l2 l3 plain1 full1 plain2 full2,
      Aggregate.secondPass st sourceFiles
      = l1 ++ plain1 :: full1 :: l2 ++ plain2 :: full2 :: l3
      ∧ is_name plain1 = "IUser" ∧ is_name plain2 = "IUser"
      ∧ is_name full1 = "IUserData" ∧ is_name full2 = "IUserData"
      ∧ is_properties full1
        = map (Aggregate.propertySignature st)
              (class_getProperties Samples.User)
      ∧ is_properties full2
        = map (Aggregate.propertySignature st)
              (class_getProperties Samples.LegacyUser).
Proof.
  intros sourceFiles st.
  apply (duplicate_class_names true sourceFiles
           [] [Samples.Profile] [] Samples.User Samples.LegacyUser "User");
    [reflexivity | reflexivity | reflexivity | discriminate].
Defined.

(** *** The empty input *)

(** C8. When the input pattern matches no source file, the script
    reports the condition on the error console and exits with status 1:
    nothing of the two passes is run, no source file is created and none is
    saved.  Only the creation of a missing output directory precedes the
    check. *)
Theorem no_input_aborts (h : Script.Host) (options : Script.Options) :
  Script.addSourceFilesAtPaths h
    (Script.path_resolve h (Script.opt_input options)) = [] →
  ∃ pre,
    Aggregate.main h options
    = (pre ++ [Script.ConsoleError
                 ("No files matched the input pattern: "
                    +:+ Script.path_resolve h (Script.opt_input options));
               Script.Exit 1],
       None)
    ∧ (pre = [] ∨ ∃ dir, pre = [Script.MkdirSync dir])
    ∧ Script.exitCode (fst (Aggregate.main h options)) = Some 1
    ∧ ∀ e, e ∈ fst (Aggregate.main h options) → Script.isWrite e = false.
Proof.
  intros Hnone. unfold Aggregate.main. rewrite Hnone. simpl.
  set (dir := Script.path_dirname h _).
  destruct (Script.fs_existsSync h dir); simpl.
  - exists []. split; [done|]. split; [by left|]. split; [done|].
    intros e. rewrite !elem_of_cons, elem_of_nil. by intros [->|[->|[]]].
  - exists [Script.MkdirSync dir]. split; [done|].
    split; [right; by exists dir|]. split; [done|].
    intros e. rewrite !elem_of_cons, elem_of_nil. by intros [->|[->|[->|[]]]].
Qed.

Lemma no_input_aborts_witness :
  ∃ pre,
    Aggregate.main (Samples.host []) Samples.options
    = (pre ++ [Script.ConsoleError
                 "No files matched the input pattern: /work/src/entities/*.ts";
               Script.Exit 1],
       None)
    ∧ (pre = [] ∨ ∃ dir, pre = [Script.MkdirSync dir])
    ∧ Script.exitCode (fst (Aggregate.main (Samples.host []) Samples.options))
      = Some 1
    ∧ ∀ e, e ∈ fst (Aggregate.main (Samples.host []) Samples.options) →
           Script.isWrite e = false.
Proof.
  apply (no_input_aborts (Samples.host []) Samples.options). reflexivity.
Defined.

(** *** Type rewriting *)

Lemma relatedInterfaceName_mapped (im : gmap string string) n s :
  im !! n = Some s → s ≠ "" → relatedInterfaceName im n = s.
Proof.
  intros Hn Hs. unfold relatedInterfaceName. rewrite Hn. simpl.
  apply truthy_nonempty in Hs. by rewrite Hs.
Qed.

Lemma relatedInterfaceName_unmapped (im : gmap string string) n :
  im !! n = None → relatedInterfaceName im n = n.
Proof. intros Hn. unfold relatedInterfaceName. by rewrite Hn. Qed.

Lemma firstPass_entry usePrefix sourceFiles n s :
  Aggregate.interfaceMap (Aggregate.firstPass usePrefix sourceFiles) !! n = Some s →
  s = interfaceNameOf usePrefix n ∧ s ≠ "".
Proof.
  rewrite firstPass_interfaceMap, collect_lookup.
  case_bool_decide as Hin; [|by rewrite lookup_empty].
  intros [= <-]. split; [done|].
  apply truthy_nonempty, interfaceNameOf_truthy.
  by apply classNames_truthy in Hin.
Qed.

Lemma targetName_symbolName t :
  targetName t
  = match symbolName t with
    | Some n => if Js.truthy n then Some n else None
    | None => None
    end.
Proof. done. Qed.

Lemma lazyRelationType_cases im tn propType t ts :
  type_getTypeArguments (tn_getType tn) = t :: ts →
  Aggregate.lazyRelationType im tn propType
  = match targetName t with
    | Some n => "Promise<" +:+ relatedInterfaceName im n +:+ "Data>"
    | None => "any"
    end.
Proof.
  intros Hargs. unfold Aggregate.lazyRelationType. rewrite Hargs.
  rewrite targetName_symbolName. destruct (symbolName t) as [n|]; [|done].
  by destruct (Js.truthy n).
Qed.

Lemma eagerRelationType_cases im prop :
  Aggregate.eagerRelationType im prop
  = match targetName (default (prop_getType prop)
                              (type_getArrayElementType (prop_getType prop))) with
    | Some n =>
        relatedInterfaceName im n
          +:+ (if type_isArray (prop_getType prop) then "Data[]" else "Data")
    | None => "any"
    end.
Proof.
  unfold Aggregate.eagerRelationType. rewrite targetName_symbolName.
  destruct (type_getArrayElementType (prop_getType prop)) as [elt|]; simpl.
  - destruct (symbolName elt) as [n|]; [|done].
    destruct (Js.truthy n); [|done]. by destruct (type_isArray _).
  - destruct (symbolName (prop_getType prop)) as [n|]; [|done].
    destruct (Js.truthy n); [|done]. by destruct (type_isArray _).
Qed.

Lemma propertyType_relation st prop :
  relationAnnotated prop →
  Aggregate.propertyType st prop
  = match Aggregate.promiseNode prop with
    | Some tn =>
        Aggregate.lazyRelationType (Aggregate.interfaceMap st) tn
          (Aggregate.enumRewrite (Aggregate.enumMap st) prop
             (type_getText (prop_getType prop)))
    | None => Aggregate.eagerRelationType (Aggregate.interfaceMap st) prop
    end.
Proof.
  intros Hrel. apply hasRelation_spec in Hrel.
  unfold Aggregate.propertyType. by rewrite Hrel.
Qed.

Lemma enumRewrite_enumSymbol em prop propType :
  Aggregate.enumRewrite em prop propType
  = match enumSymbol (prop_getType prop) with
    | Some enumName => enumName
    | None => propType
    end.
Proof.
  unfold Aggregate.enumRewrite, enumSymbol.
  destruct (type_getSymbol (prop_getType prop)) as [sym|]; [|done].
  destruct (existsb _ _); [|done]. by destruct (Js.omap_has _ _).
Qed.

Lemma generateClass_named st acc c n :
  resolvableName c = Some n →
  Aggregate.generateClass st acc c
  = acc ++
    [ {| is_name := interfaceNameGet (Aggregate.interfaceMap st) n;
         is_properties :=
           map (Aggregate.propertySignature st)
               (List.filter isPlain (class_getProperties c));
         is_isExported := true |};
      {| is_name := interfaceNameGet (Aggregate.interfaceMap st) n +:+ "Data";
         is_properties :=
           map (Aggregate.propertySignature st) (class_getProperties c);
         is_isExported := true |} ].
Proof.
  unfold Aggregate.generateClass, resolvableName.
  destruct (class_getName c) as [k|]; [|done].
  destruct (Js.truthy k); [|done]. intros [= ->].
  by rewrite pushProperty_foldl.
Qed.

(** C9 (amended). A property that carries none of the four relation
    markers gets, in the plain and in the full shape alike, the text of its
    type unchanged, unless the symbol of the type is declared by an enum: the
    output type is then the name of that symbol. *)
Theorem plain_property_type (st : Aggregate.Tables) (c : ClassDeclaration)
    (n : string) (prop : PropertyDeclaration) :
  resolvableName c = Some n →
  prop ∈ class_getProperties c →
  ¬ relationAnnotated prop →
  ∃ plain full sig,
    Aggregate.generateClass st [] c = [plain; full]
    ∧ sig ∈ is_properties plain
    ∧ sig ∈ is_properties full
    ∧ ps_name sig = prop_getName prop
    ∧ (enumSymbol (prop_getType prop) = None →
       ps_type sig = type_getText (prop_getType prop))
    ∧ (∀ enumName, enumSymbol (prop_getType prop) = Some enumName →
       ps_type sig = enumName).
Proof.
  intros Hn Hin Hplain. rewrite (generateClass_named st [] c n Hn). simpl.
  eexists _, _, (Aggregate.propertySignature st prop).
  split; [reflexivity|]. simpl.
  apply isPlain_spec in Hplain.
  split; [|split; [|split; [done|]]].
  - apply list_elem_of_fmap_2. apply list_elem_of_In, filter_In.
    split; [by apply list_elem_of_In|done].
  - by apply list_elem_of_fmap_2.
  - unfold Aggregate.propertyType. unfold isPlain in Hplain.
    destruct (hasRelation _); [done|]. rewrite enumRewrite_enumSymbol.
    split; [by intros ->|]. by intros enumName ->.
Qed.

Lemma plain_property_type_witness :
  let st := Aggregate.firstPass true [MkSourceFile [] [Samples.Ticket]] in
  ∃ plain full sig,
    Aggregate.generateClass st [] Samples.Ticket = [plain; full]
    ∧ sig ∈ is_properties plain
    ∧ sig ∈ is_properties full
    ∧ ps_name sig = "status"
    ∧ (enumSymbol Samples.statusType = None →
       ps_type sig = type_getText Samples.statusType)
    ∧ (∀ enumName, enumSymbol Samples.statusType = Some enumName →
       ps_type sig = enumName).
Proof.
  intros st.
  apply (plain_property_type st Samples.Ticket "Ticket" Samples.statusProperty).
  - reflexivity.
  - apply list_elem_of_further, list_elem_of_here.
  - intros Hrel. apply hasRelation_spec in Hrel. discriminate Hrel.
Defined.

(** C9, as stated, fails on an enum-typed column: the text of the type is
    the qualified [import(...).Status], the emitted type is [Status]. *)
Lemma enum_property_type_rewritten :
  let st := Aggregate.firstPass true [MkSourceFile [] [Samples.Ticket]] in
  hasRelation (prop_getDecorators Samples.statusProperty) = false
  ∧ Aggregate.secondPass st [MkSourceFile [] [Samples.Ticket]]
    = [ MkInterface "ITicket"
          [MkSignature "id" "number" false; MkSignature "status" "Status" false]
          true;
        MkInterface "ITicketData"
          [MkSignature "id" "number" false; MkSignature "status" "Status" false]
          true ]
  ∧ Aggregate.propertyType st Samples.statusProperty = "Status"
  ∧ Aggregate.propertyType st Samples.statusProperty
    ≠ type_getText (prop_getType Samples.statusProperty).
Proof. vm_compute. repeat split; discriminate. Qed.

(** C3 (amended). For a relation-annotated property whose annotation
    mentions [Promise] and whose annotated type has a type argument: when the
    first type argument names a class of the symbol table, the output type is
    [Promise<...>] around the mapped shape name followed by [Data]; when its
    symbol gives no name, the output type is [any]; when it names an entity
    that is not in the symbol table, the output type is [Promise<...>] around
    the entity name itself followed by [Data]. *)
Theorem lazy_relation_type (usePrefix : bool) (sourceFiles : list SourceFile)
    (prop : PropertyDeclaration) (tn : TypeNode) (t : Type_) (ts : list Type_) :
  let st := Aggregate.firstPass usePrefix sourceFiles in
  relationAnnotated prop →
  prop_getTypeNode prop = Some tn →
  Js.includes "Promise" (tn_getText tn) = true →
  type_getTypeArguments (tn_getType tn) = t :: ts →
  (∀ n s, targetName t = Some n → Aggregate.interfaceMap st !! n = Some s →
          s = interfaceNameOf usePrefix n
          ∧ Aggregate.propertyType st prop = "Promise<" +:+ s +:+ "Data>")
  ∧ (targetName t = None → Aggregate.propertyType st prop = "any")
  ∧ (∀ n, targetName t = Some n → Aggregate.interfaceMap st !! n = None →
          Aggregate.propertyType st prop = "Promise<" +:+ n +:+ "Data>").
Proof.
  intros st Hrel Hnode Hpromise Hargs.
  assert (Hty : Aggregate.propertyType st prop
                = match targetName t with
                  | Some n =>
                      "Promise<"
                        +:+ relatedInterfaceName (Aggregate.interfaceMap st) n
                        +:+ "Data>"
                  | None => "any"
                  end).
  { rewrite propertyType_relation by done. unfold Aggregate.promiseNode.
    rewrite Hnode, Hpromise. by apply lazyRelationType_cases with ts. }
  rewrite Hty. split; [|split].
  - intros n s -> Hs. destruct (firstPass_entry _ _ _ _ Hs) as [-> Hne].
    split; [done|]. by rewrite (relatedInterfaceName_mapped _ _ _ Hs Hne).
  - by intros ->.
  - intros n -> Hn. by rewrite relatedInterfaceName_unmapped.
Qed.

Lemma lazy_relation_type_witness :
  let sourceFiles := [MkSourceFile [] [Samples.Order; Samples.Customer]] in
  let st := Aggregate.firstPass true sourceFiles in
  let customer :=
    Samples.property "customer" ["ManyToOne"]
      (Samples.promiseOf (Samples.named "Customer")) in
  Aggregate.interfaceMap st !! "Customer" = Some "ICustomer"
  ∧ Aggregate.propertyType st customer = "Promise<ICustomerData>".
Proof.
  intros sourceFiles st customer.
  split; [reflexivity|].
  refine (proj2 (proj1 (lazy_relation_type true sourceFiles customer
                   (MkTypeNode "Promise<Customer>"
                      (Samples.promiseOf (Samples.named "Customer")))
                   (Samples.named "Customer") [] _ _ _ _)
                 "Customer" "ICustomer" _ _)).
  - apply hasRelation_spec. reflexivity.
  - reflexivity.
  - reflexivity.
  - reflexivity.
  - reflexivity.
  - reflexivity.
Defined.

(** C3, as stated, fails when the wrapped target is not a class of the
    input: [customer: Promise<Customer>] with no class [Customer] supplied is
    emitted as [Promise<CustomerData>], which is neither [any] nor built from
    a shape name of the symbol table. *)
Lemma lazy_unmapped_target_passes_through :
  let sourceFiles := [MkSourceFile [] [Samples.Order]] in
  let st := Aggregate.firstPass true sourceFiles in
  let customer :=
    Samples.property "customer" ["ManyToOne"]
      (Samples.promiseOf (Samples.named "Customer")) in
  customer ∈ class_getProperties Samples.Order
  ∧ hasRelation (prop_getDecorators customer) = true
  ∧ Aggregate.interfaceMap st !! "Customer" = None
  ∧ map_to_list (Aggregate.interfaceMap st) = [("Order", "IOrder")]
  ∧ Aggregate.propertyType st customer = "Promise<CustomerData>"
  ∧ Aggregate.propertyType st customer ≠ "any"
  ∧ Aggregate.secondPass st sourceFiles
    = [ MkInterface "IOrder" [MkSignature "id" "number" false] true;
        MkInterface "IOrderData"
          [MkSignature "id" "number" false;
           MkSignature "customer" "Promise<CustomerData>" false]
          true ].
Proof.
  intros sourceFiles st customer.
  split; [apply list_elem_of_further, list_elem_of_here|].
  vm_compute. repeat split; discriminate.
Qed.






(** C1 (amended). A relation-annotated property whose target type gives
    no symbol name (the element type or the type itself for an eager
    relation, the first type argument for a [Promise] annotation with type
    arguments) gets the type [any]; a target that has a name which is not a
    key of the symbol table is passed through under its own name, followed by
    [Data] and wrapped as a mapped target would be.  In both cases the run goes
    on: every named class still yields its two shapes, and the full shape
    holds a signature for every property of the class. *)
Theorem unresolved_relation_type (usePrefix : bool)
    (sourceFiles : list SourceFile) (prop : PropertyDeclaration) :
  let st := Aggregate.firstPass usePrefix sourceFiles in
  relationAnnotated prop →
  (Aggregate.promiseNode prop = None →
   let elt := default (prop_getType prop)
                      (type_getArrayElementType (prop_getType prop)) in
   (targetName elt = None → Aggregate.propertyType st prop = "any")
   ∧ (∀ n, targetName elt = Some n → Aggregate.interfaceMap st !! n = None →
           Aggregate.propertyType st prop
           = n +:+ (if type_isArray (prop_getType prop)
                    then "Data[]" else "Data")))
  ∧ (∀ tn t ts,
       Aggregate.promiseNode prop = Some tn →
       type_getTypeArguments (tn_getType tn) = t :: ts →
       (targetName t = None → Aggregate.propertyType st prop = "any")
       ∧ (∀ n, targetName t = Some n → Aggregate.interfaceMap st !! n = None →
               Aggregate.propertyType st prop = "Promise<" +:+ n +:+ "Data>"))
  ∧ (∀ c n p,
       c ∈ allClasses sourceFiles → class_getName c = Some n → n ≠ "" →
       p ∈ class_getProperties c →
       ∃ plain full,
         plain ∈ Aggregate.secondPass st sourceFiles
         ∧ full ∈ Aggregate.secondPass st sourceFiles
         ∧ is_name plain = interfaceNameOf usePrefix n
         ∧ is_name full = interfaceNameOf usePrefix n +:+ "Data"
         ∧ Aggregate.propertySignature st p ∈ is_properties full).
Proof.
  intros st Hrel. split; [|split].
  - intros Heager elt. rewrite propertyType_relation by done.
    rewrite Heager, eagerRelationType_cases. fold elt. split.
    + by intros ->.
    + intros n -> Hn. by rewrite relatedInterfaceName_unmapped.
  - intros tn t ts Hlazy Hargs. rewrite propertyType_relation by done.
    rewrite Hlazy, (lazyRelationType_cases _ _ _ t ts) by done. split.
    + by intros ->.
    + intros n -> Hn. by rewrite relatedInterfaceName_unmapped.
  - intros c n p Hc Hn Hne Hp. subst st. rewrite secondPass_shapes.
    pose proof (resolvableName_Some c n Hn Hne) as Hr.
    assert (Hsub : ∀ i, i ∈ shapesOf usePrefix
                             (Aggregate.firstPass usePrefix sourceFiles) c →
                        i ∈ concat (map (shapesOf usePrefix
                             (Aggregate.firstPass usePrefix sourceFiles))
                             (allClasses sourceFiles))).
    { intros i Hi. apply list_elem_of_In, in_concat.
      eexists. split; [|apply list_elem_of_In, Hi].
      apply in_map. by apply list_elem_of_In. }
    unfold shapesOf in Hsub at 1. rewrite Hr in Hsub.
    eexists _, _. split; [apply Hsub, list_elem_of_here|].
    split; [apply Hsub, list_elem_of_further, list_elem_of_here|].
    simpl. repeat split. by apply list_elem_of_fmap_2.
Qed.

Lemma unresolved_relation_type_witness :
  let sourceFiles :=
    [MkSourceFile [] [Samples.Crew; Samples.Employee; Samples.Contractor]] in
  let st := Aggregate.firstPass true sourceFiles in
  let members :=
    Samples.property "members" ["OneToMany"]
      (Samples.arrayOf
         (Samples.unionOf (Samples.named "Employee") (Samples.named "Contractor"))) in
  Aggregate.propertyType st members = "any".
Proof.
  intros sourceFiles st members.
  refine (proj1 (proj1 (unresolved_relation_type true sourceFiles members _) _) _).
  - apply hasRelation_spec. reflexivity.
  - reflexivity.
  - reflexivity.
Defined.

(** C1, as stated, fails when the target has a name that is not in the
    symbol table: [owner: User] with no class [User] supplied is emitted as
    [UserData], the entity name passed through, and not as [any]. *)
Lemma eager_unmapped_target_passes_through :
  let sourceFiles := [MkSourceFile [] [Samples.Account]] in
  let st := Aggregate.firstPass true sourceFiles in
  let owner := Samples.property "owner" ["ManyToOne"] (Samples.named "User") in
  owner ∈ class_getProperties Samples.Account
  ∧ hasRelation (prop_getDecorators owner) = true
  ∧ Aggregate.interfaceMap st !! "User" = None
  ∧ Aggregate.propertyType st owner = "UserData"
  ∧ Aggregate.propertyType st owner ≠ "any"
  ∧ Aggregate.secondPass st sourceFiles
    = [ MkInterface "IAccount" [MkSignature "id" "number" false] true;
        MkInterface "IAccountData"
          [MkSignature "id" "number" false;
           MkSignature "owner" "UserData" false]
          true ].
Proof.
  intros sourceFiles st owner.
  split; [apply list_elem_of_further, list_elem_of_here|].
  vm_compute. repeat split; discriminate.
Qed.

(** *** Imports of the per-file generator *)

Lemma set_add_elem x y (l : list string) :
  y ∈ Js.set_add x l → y = x ∨ y ∈ l.
Proof.
  unfold Js.set_add. destruct (Js.set_has x l); [by right|].
  rewrite elem_of_app, list_elem_of_singleton. tauto.
Qed.

(** Whatever the type texts, an import is a key of the symbol table, that
    is a class name, and differs from the name of the interface. *)
Lemma computeImports_keys (im : gmap string string) interfaceName props x :
  x ∈ PerFile.computeImports im interfaceName props →
  is_Some (im !! x) ∧ x ≠ interfaceName.
Proof.
  unfold PerFile.computeImports.
  set (P := fun l : list string =>
              ∀ y, y ∈ l → is_Some (im !! y) ∧ y ≠ interfaceName).
  assert (Hinner : ∀ names l, P l →
    P (foldl (fun imports typeName =>
                if PerFile.isImport im interfaceName (PerFile.cleanTypeName typeName)
                then Js.set_add (PerFile.cleanTypeName typeName) imports
                else imports) l names)).
  { induction names as [|t names IH]; intros l Hl; simpl; [done|].
    apply IH. destruct (PerFile.isImport _ _ _) eqn:E; [|done].
    intros y Hy. apply set_add_elem in Hy as [->|Hy]; [|by apply Hl].
    unfold PerFile.isImport in E. apply andb_true_iff in E as [E1 E2].
    apply bool_decide_eq_true in E1. split; [done|].
    intros Heq. rewrite Heq, String.eqb_refl in E2. discriminate. }
  assert (Houter : ∀ l, P l →
    P (foldl (fun imports prop =>
                foldl (fun imports typeName =>
                         if PerFile.isImport im interfaceName
                              (PerFile.cleanTypeName typeName)
                         then Js.set_add (PerFile.cleanTypeName typeName) imports
                         else imports)
                      imports (PerFile.matchTypeNames (ps_type prop)))
             l props)).
  { induction props as [|p props IH]; intros l Hl; simpl; [done|].
    apply IH. by apply Hinner. }
  intros Hx. apply (Houter []); [|done]. intros y Hy.
  by apply elem_of_nil in Hy.
Qed.

(** C2. With prefixing on, the import set of a generated interface
    misses the shape names its property types refer to: [IAccount] has the
    property type [IUser], [IUser] is the shape name the first pass gives the
    class [User], and yet the import set is empty and the file is saved
    without import declarations, because the membership test is made on the
    class names.  With prefixing off, where class and shape names coincide,
    the same classes give the import [User]. *)
Lemma imports_miss_prefixed_shape_names :
  let sourceFiles := [MkSourceFile [] [Samples.Account; Samples.LegacyUser]] in
  let im := PerFile.firstPass true sourceFiles in
  let account := PerFile.interfaceStructureOf im "Account" Samples.Account in
  im !! "User" = Some "IUser"
  ∧ im !! "IUser" = None
  ∧ account
    = MkInterface "IAccount"
        [MkSignature "id" "number" false; MkSignature "owner" "IUser" false]
        true
  ∧ map PerFile.cleanTypeName (PerFile.matchTypeNames "IUser") = ["IUser"]
  ∧ PerFile.computeImports im "IAccount" (is_properties account) = []
  ∧ PerFile.main (Samples.host sourceFiles) Samples.dirOptions
    = ([ Script.CreateSourceFile "/work/out/IAccount.ts" [StInterface account];
         Script.SaveSync "/work/out/IAccount.ts";
         Script.CreateSourceFile "/work/out/IUser.ts"
           [StInterface
              (MkInterface "IUser" [MkSignature "login" "string" false] true)];
         Script.SaveSync "/work/out/IUser.ts" ],
       Some tt)
  ∧ PerFile.computeImports (PerFile.firstPass false sourceFiles) "Account"
      (is_properties
         (PerFile.interfaceStructureOf (PerFile.firstPass false sourceFiles)
            "Account" Samples.Account))
    = ["User"].
Proof. vm_compute. by repeat split. Qed.

(** *** The scenarios of the specification *)

(** Scenario A: [User] with [id: number] and a many-to-one [profile: Profile]. *)
Example scenario_A :
  Aggregate.statements true [MkSourceFile [] [Samples.User; Samples.Profile]]
  = map StInterface
      [ MkInterface "IUser" [MkSignature "id" "number" false] true;
        MkInterface "IUserData"
          [MkSignature "id" "number" false;
           MkSignature "profile" "IProfileData" false]
          true;
        MkInterface "IProfile" [MkSignature "bio" "string" false] true;
        MkInterface "IProfileData" [MkSignature "bio" "string" false] true ].
Proof. reflexivity. Qed.

(** Scenario B: [Team] with a one-to-many [members: Employee[]]. *)
Example scenario_B :
  Aggregate.secondPass
    (Aggregate.firstPass true [MkSourceFile [] [Samples.Team; Samples.Employee]])
    [MkSourceFile [] [Samples.Team]]
  = [ MkInterface "ITeam" [] true;
      MkInterface "ITeamData" [MkSignature "members" "IEmployeeData[]" false]
        true ].
Proof. reflexivity. Qed.

(** Scenario C: [Order] with a deferred many-to-one [customer]. *)
Example scenario_C :
  Aggregate.secondPass
    (Aggregate.firstPass true [MkSourceFile [] [Samples.Order; Samples.Customer]])
    [MkSourceFile [] [Samples.Order]]
  = [ MkInterface "IOrder" [MkSignature "id" "number" false] true;
      MkInterface "IOrderData"
        [MkSignature "id" "number" false;
         MkSignature "customer" "Promise<ICustomerData>" false]
        true ].
Proof. reflexivity. Qed.

(** Scenario D: no unit matches. *)
Example scenario_D :
  Aggregate.main (Samples.host []) Samples.options
  = ([ Script.ConsoleError
         "No files matched the input pattern: /work/src/entities/*.ts";
       Script.Exit 1 ],
     None).
Proof. reflexivity. Qed.

(** A class without relation properties has the same properties in its
    plain and in its full shape. *)
Lemma relation_free_shapes st acc c n :
  resolvableName c = Some n →
  (∀ p, p ∈ class_getProperties c → ¬ relationAnnotated p) →
  ∃ plain full,
    Aggregate.generateClass st acc c = acc ++ [plain; full]
    ∧ is_properties plain = is_properties full.
Proof.
  intros Hn Hfree. rewrite (generateClass_named st acc c n Hn).
  eexists _, _. split; [reflexivity|]. simpl. f_equal.
  induction (class_getProperties c) as [|p props IH]; simpl; [done|].
  assert (isPlain p = true) as ->
    by (apply isPlain_spec, Hfree, list_elem_of_here).
  f_equal. apply IH. intros q Hq. by apply Hfree, list_elem_of_further.
Qed.

(** ** Further properties of the single-file generator *)

Lemma relation_free_shapes_witness :
  ∃ plain full,
    Aggregate.generateClass
      (Aggregate.firstPass true [MkSourceFile [] [Samples.Profile]])
      [] Samples.Profile
    = [] ++ [plain; full]
    ∧ is_properties plain = is_properties full.
Proof.
  apply (relation_free_shapes _ [] Samples.Profile "Profile"); [reflexivity|].
  intros p Hp Hrel. apply list_elem_of_singleton in Hp. subst p.
  apply hasRelation_spec in Hrel. discriminate Hrel.
Defined.

(** The properties of the plain shape of a class are, in the same order,
    a sub-sequence of the properties of its full shape. *)
Theorem plain_sublist_of_full (st : Aggregate.Tables)
    (acc : list InterfaceDeclarationStructure) (c : ClassDeclaration)
    (n : string) :
  resolvableName c = Some n →
  ∃ plain full,
    Aggregate.generateClass st acc c = acc ++ [plain; full]
    ∧ is_properties plain `sublist_of` is_properties full.
Proof.
  intros Hn. rewrite (generateClass_named st acc c n Hn).
  eexists _, _. split; [reflexivity|]. simpl.
  induction (class_getProperties c) as [|p props IH]; simpl; [constructor|].
  destruct (isPlain p); simpl; by constructor.
Qed.

Lemma plain_sublist_of_full_witness :
  ∃ plain full,
    Aggregate.generateClass
      (Aggregate.firstPass true [MkSourceFile [] [Samples.User]])
      [] Samples.User
    = [] ++ [plain; full]
    ∧ is_properties plain `sublist_of` is_properties full.
Proof.
  apply (plain_sublist_of_full _ [] Samples.User "User"). reflexivity.
Defined.

(** An eager relation to a single entity (no [Promise] in the annotation,
    not an array): a target of the symbol table is written as its shape name
    followed by [Data], a named target outside the table as its own name
    followed by [Data], a target without a symbol name as [any]. *)
Theorem eager_single_type (usePrefix : bool) (sourceFiles : list SourceFile)
    (prop : PropertyDeclaration) :
  let st := Aggregate.firstPass usePrefix sourceFiles in
  relationAnnotated prop →
  Aggregate.promiseNode prop = None →
  type_isArray (prop_getType prop) = false →
  type_getArrayElementType (prop_getType prop) = None →
  (∀ n, targetName (prop_getType prop) = Some n →
        n ∈ classNames (allClasses sourceFiles) →
        Aggregate.propertyType st prop = interfaceNameOf usePrefix n +:+ "Data")
  ∧ (∀ n, targetName (prop_getType prop) = Some n →
          n ∉ classNames (allClasses sourceFiles) →
          Aggregate.propertyType st prop = n +:+ "Data")
  ∧ (targetName (prop_getType prop) = None →
     Aggregate.propertyType st prop = "any").
Proof.
  intros st Hrel Heager Harr Helt.
  rewrite propertyType_relation by done. rewrite Heager.
  rewrite eagerRelationType_cases, Helt, Harr. simpl.
  split; [|split].
  - intros n -> Hin.
    assert (Hs : Aggregate.interfaceMap st !! n = Some (interfaceNameOf usePrefix n)).
    { subst st. rewrite firstPass_interfaceMap, collect_lookup.
      by rewrite bool_decide_eq_true_2. }
    destruct (firstPass_entry _ _ _ _ Hs) as [_ Hne].
    by rewrite (relatedInterfaceName_mapped _ _ _ Hs Hne).
  - intros n -> Hnin. rewrite relatedInterfaceName_unmapped; [done|].
    subst st. rewrite firstPass_interfaceMap, collect_lookup.
    by rewrite bool_decide_eq_false_2.
  - by intros ->.
Qed.

Lemma eager_single_type_witness :
  let sourceFiles := [MkSourceFile [] [Samples.User]; MkSourceFile [] [Samples.Profile]] in
  Aggregate.propertyType (Aggregate.firstPass true sourceFiles)
    (Samples.property "profile" ["ManyToOne"] (Samples.named "Profile"))
  = "IProfileData".
Proof.
  intros sourceFiles.
  refine (proj1 (eager_single_type true sourceFiles
                   (Samples.property "profile" ["ManyToOne"] (Samples.named "Profile"))
                   _ _ _ _) "Profile" _ _).
  - apply hasRelation_spec. reflexivity.
  - reflexivity.
  - reflexivity.
  - reflexivity.
  - reflexivity.
  - apply list_elem_of_further, list_elem_of_here.
Defined.

(** A relation-annotated property whose annotation contains the text
    [Promise] but whose annotated type has no type argument is not rewritten
    at all: it keeps the text of its type (or the enum name), even when the
    type names a class of the symbol table. *)
Theorem promise_text_without_arguments (st : Aggregate.Tables)
    (prop : PropertyDeclaration) (tn : TypeNode) :
  relationAnnotated prop →
  prop_getTypeNode prop = Some tn →
  Js.includes "Promise" (tn_getText tn) = true →
  type_getTypeArguments (tn_getType tn) = [] →
  Aggregate.propertyType st prop
  = match enumSymbol (prop_getType prop) with
    | Some enumName => enumName
    | None => type_getText (prop_getType prop)
    end.
Proof.
  intros Hrel Hnode Hpromise Hargs. rewrite propertyType_relation by done.
  unfold Aggregate.promiseNode. rewrite Hnode, Hpromise.
  unfold Aggregate.lazyRelationType. rewrite Hargs.
  apply enumRewrite_enumSymbol.
Qed.

Lemma promise_text_without_arguments_witness :
  let st := Aggregate.firstPass true
              [MkSourceFile [] [Samples.Reminder; Samples.PromiseNote]] in
  Aggregate.interfaceMap st !! "PromiseNote" = Some "IPromiseNote"
  ∧ Aggregate.propertyType st
      (Samples.property "note" ["OneToOne"] (Samples.named "PromiseNote"))
    = "PromiseNote".
Proof.
  intros st. split; [reflexivity|].
  apply (promise_text_without_arguments st
           (Samples.property "note" ["OneToOne"] (Samples.named "PromiseNote"))
           (MkTypeNode "PromiseNote" (Samples.named "PromiseNote"))).
  - apply hasRelation_spec. reflexivity.
  - reflexivity.
  - reflexivity.
  - reflexivity.
Defined.

Lemma elem_of_classNames_allClasses sourceFiles n :
  n ∈ classNames (allClasses sourceFiles)
  ↔ ∃ sf c, sf ∈ sourceFiles ∧ c ∈ sf_getClasses sf ∧ resolvableName c = Some n.
Proof.
  unfold classNames, allClasses. rewrite list_elem_of_omap. split.
  - intros (c & Hc & Hn). apply list_elem_of_In, in_concat in Hc as (cs & Hcs & Hc).
    apply in_map_iff in Hcs as (sf & <- & Hsf).
    exists sf, c. by rewrite !list_elem_of_In.
  - intros (sf & c & Hsf & Hc & Hn). exists c. split; [|done].
    apply list_elem_of_In, in_concat. exists (sf_getClasses sf).
    split; [apply in_map|]; by apply list_elem_of_In.
Qed.

(** The symbol table does not depend on the order of the input units: any
    rearrangement of the source files gives the same table, so a relation
    resolves the same way whether its target is declared before or after. *)
Theorem symbol_table_order_independent (usePrefix : bool)
    (sourceFiles sourceFiles' : list SourceFile) :
  sourceFiles ≡ₚ sourceFiles' →
  Aggregate.interfaceMap (Aggregate.firstPass usePrefix sourceFiles)
  = Aggregate.interfaceMap (Aggregate.firstPass usePrefix sourceFiles').
Proof.
  intros Hperm. apply map_eq. intros n.
  rewrite !firstPass_interfaceMap, !collect_lookup.
  assert (Hiff : n ∈ classNames (allClasses sourceFiles)
                 ↔ n ∈ classNames (allClasses sourceFiles')).
  { rewrite !elem_of_classNames_allClasses.
    split; intros (sf & c & Hsf & Hc); exists sf, c;
      (split; [|done]); [by rewrite <- Hperm | by rewrite Hperm]. }
  destruct (decide (n ∈ classNames (allClasses sourceFiles))) as [Hin|Hnin].
  - rewrite !bool_decide_eq_true_2; [done|by apply Hiff|done].
  - rewrite !bool_decide_eq_false_2; [done|by rewrite <- Hiff|done].
Qed.

Lemma symbol_table_order_independent_witness :
  Aggregate.interfaceMap
    (Aggregate.firstPass true
       [MkSourceFile [] [Samples.User]; MkSourceFile [] [Samples.Profile]])
  = Aggregate.interfaceMap
      (Aggregate.firstPass true
         [MkSourceFile [] [Samples.Profile]; MkSourceFile [] [Samples.User]]).
Proof.
  apply symbol_table_order_independent. apply perm_swap.
Defined.

(** *** Enum declarations *)

Lemma elem_of_firstSeen l x : x ∈ firstSeen l ↔ x ∈ l.
Proof.
  induction l as [|y l IH]; simpl; [done|].
  rewrite !elem_of_cons, list_elem_of_filter, IH.
  destruct (decide (x = y)); tauto.
Qed.

Lemma NoDup_firstSeen l : NoDup (firstSeen l).
Proof.
  induction l as [|y l IH]; simpl; constructor.
  - rewrite list_elem_of_filter. tauto.
  - by apply NoDup_filter.
Qed.

(** No enum is emitted twice: the names of the emitted enum declarations
    are pairwise distinct, and they are exactly the non-empty enum names of
    the input. *)
Theorem emitted_enum_names_distinct (usePrefix : bool)
    (sourceFiles : list SourceFile) :
  let allEnums :=
    Js.omap_values (Aggregate.enumMap (Aggregate.firstPass usePrefix sourceFiles)) in
  NoDup (map es_name allEnums)
  ∧ ∀ k, k ∈ map es_name allEnums
         ↔ k ≠ "" ∧ ∃ e, e ∈ allEnumDeclarations sourceFiles ∧ enum_getName e = k.
Proof.
  intros allEnums. subst allEnums. rewrite allEnums_names.
  split; [apply NoDup_firstSeen|]. intros k.
  rewrite elem_of_firstSeen. unfold enumNames.
  rewrite list_elem_of_filter, list_elem_of_fmap. split.
  - intros (Hne & e & -> & He). split; [done|]. by exists e.
  - intros (Hne & e & He & <-). split; [done|]. by exists e.
Qed.

Lemma omap_set_elem {V} k (v : V) (m : Js.OrderedMap V) k' v' :
  NoDup (Js.omap_keys m) →
  (k', v') ∈ Js.omap_set k v m →
  (k' = k ∧ v' = v) ∨ (k' ≠ k ∧ (k', v') ∈ m).
Proof.
  induction m as [|[k0 v0] m IH]; simpl; intros Hnd Hin.
  - apply list_elem_of_singleton in Hin. left. by inversion Hin.
  - apply NoDup_cons in Hnd as [Hk0 Hnd].
    destruct (String.eqb_spec k0 k) as [->|Hne].
    + apply elem_of_cons in Hin as [Hin|Hin]; [left; by inversion Hin|].
      right. split; [|by apply list_elem_of_further].
      intros ->. apply Hk0. unfold Js.omap_keys.
      apply list_elem_of_fmap. by exists (k, v').
    + apply elem_of_cons in Hin as [Hin|Hin].
      * inversion Hin; subst. right. split; [done|apply list_elem_of_here].
      * destruct (IH Hnd Hin) as [?|[? ?]]; [by left|].
        right. split; [done|by apply list_elem_of_further].
Qed.

Lemma collectEnum_keys_NoDup es :
  NoDup (Js.omap_keys (foldl Aggregate.collectEnum [] es)).
Proof.
  rewrite collectEnum_keys. simpl. apply NoDup_firstSeen.
Qed.

Lemma collectEnum_keys_nonempty es k v :
  (k, v) ∈ foldl Aggregate.collectEnum [] es → k ≠ "".
Proof.
  intros Hin.
  assert (Hk : k ∈ Js.omap_keys (foldl Aggregate.collectEnum [] es)).
  { unfold Js.omap_keys. apply list_elem_of_fmap. by exists (k, v). }
  rewrite collectEnum_keys in Hk. simpl in Hk.
  apply elem_of_firstSeen, list_elem_of_filter in Hk as [_ Hk].
  unfold enumNames in Hk. by apply list_elem_of_filter in Hk as [Hk _].
Qed.

Lemma collectEnum_last es k v :
  (k, v) ∈ foldl Aggregate.collectEnum [] es →
  ∃ e, lastEnumNamed k es = Some e ∧ v = Aggregate.enumStructureOf e.
Proof.
  revert k v. induction es as [|e es IH] using rev_ind; intros k v.
  - simpl. by intros ?%elem_of_nil.
  - intros Hin. pose proof (collectEnum_keys_nonempty _ _ _ Hin) as Hk.
    rewrite foldl_app in Hin. simpl in Hin.
    unfold lastEnumNamed. rewrite filter_app.
    unfold Aggregate.collectEnum in Hin.
    destruct (Js.truthy (enum_getName e)) eqn:Ht.
    + apply omap_set_elem in Hin; [|apply collectEnum_keys_NoDup].
      destruct Hin as [[-> ->]|[Hne Hin]].
      * exists e. split; [|done].
        rewrite filter_cons_True by done. simpl. apply last_snoc.
      * rewrite filter_cons_False by done. simpl. rewrite app_nil_r.
        by apply IH.
    + rewrite filter_cons_False; [simpl; rewrite app_nil_r; by apply IH|].
      intros Heq. rewrite Heq in Ht. apply Hk.
      by destruct k.
Qed.

(** When several enum declarations share a name, the emitted declaration
    is built from the last of them (its members replace the earlier ones),
    while it keeps the position of the first. *)
Theorem last_enum_declaration_wins (usePrefix : bool)
    (sourceFiles : list SourceFile) (s : EnumDeclarationStructure) :
  s ∈ Js.omap_values (Aggregate.enumMap (Aggregate.firstPass usePrefix sourceFiles)) →
  ∃ e, lastEnumNamed (es_name s) (allEnumDeclarations sourceFiles) = Some e
       ∧ s = Aggregate.enumStructureOf e.
Proof.
  rewrite firstPass_enumMap. unfold Js.omap_values.
  rewrite list_elem_of_fmap. intros ([k v] & -> & Hin). simpl.
  destruct (collectEnum_last _ _ _ Hin) as (e & He & ->).
  exists e. split; [|done]. simpl.
  unfold lastEnumNamed in He. apply last_Some in He as (l' & He).
  assert (Hin' : e ∈ filter (λ e0, enum_getName e0 = k)
                       (allEnumDeclarations sourceFiles))
    by (rewrite He, elem_of_app, list_elem_of_singleton; by right).
  apply list_elem_of_filter in Hin' as [<- _].
  unfold lastEnumNamed. rewrite He. apply last_snoc.
Qed.

Lemma last_enum_declaration_wins_witness :
  let sourceFiles :=
    [MkSourceFile [Samples.ColorV1; Samples.Size] [];
     MkSourceFile [Samples.ColorV2] []] in
  Js.omap_values (Aggregate.enumMap (Aggregate.firstPass true sourceFiles))
  = [Aggregate.enumStructureOf Samples.ColorV2;
     Aggregate.enumStructureOf Samples.Size]
  ∧ ∃ e, lastEnumNamed "Color" (allEnumDeclarations sourceFiles) = Some e
         ∧ Aggregate.enumStructureOf Samples.ColorV2 = Aggregate.enumStructureOf e.
Proof.
  intros sourceFiles. split; [reflexivity|].
  apply (last_enum_declaration_wins true sourceFiles
           (Aggregate.enumStructureOf Samples.ColorV2)).
  apply list_elem_of_here.
Defined.

(** ** The scripts as processes *)

Lemma bind_ok {A B} (m : Script.M A) (k : A → Script.M B) a :
  snd m = Some a →
  Script.bind m k = (fst m ++ fst (k a), snd (k a)).
Proof.
  destruct m as [t r]. simpl. intros ->. simpl. by destruct (k a).
Qed.

Lemma forEach_ok {A} (f : A → Script.M unit) (l : list A) :
  (∀ x, x ∈ l → snd (f x) = Some tt) →
  Script.forEach f l = (concat (map (fun x => fst (f x)) l), Some tt).
Proof.
  induction l as [|x l IH]; intros Hok; simpl; [done|].
  rewrite (bind_ok _ _ tt) by apply Hok, list_elem_of_here.
  rewrite IH; [done|]. intros y Hy. by apply Hok, list_elem_of_further.
Qed.

Lemma forEach_nested_ok {A B} (f : B → Script.M unit) (g : A → list B)
    (l : list A) :
  (∀ y, y ∈ concat (map g l) → snd (f y) = Some tt) →
  Script.forEach (fun x => Script.forEach f (g x)) l
  = (concat (map (fun y => fst (f y)) (concat (map g l))), Some tt).
Proof.
  induction l as [|x l IH]; intros Hok; simpl; [done|].
  simpl in Hok. setoid_rewrite elem_of_app in Hok.
  rewrite (forEach_ok f (g x)) by (intros y Hy; apply Hok; by left).
  simpl. rewrite IH by (intros y Hy; apply Hok; by right).
  simpl. by rewrite map_app, concat_app.
Qed.

(** On a non-empty input the single-file script does not exit: it creates
    and saves exactly one file, whose statements are those of the two passes.
    The file is the resolved output path when that ends in [.ts], and
    [IEntity.ts] inside it otherwise. *)
Theorem single_file_written (h : Script.Host) (options : Script.Options) :
  let sourceFiles :=
    Script.addSourceFilesAtPaths h
      (Script.path_resolve h (Script.opt_input options)) in
  let resolved := Script.path_resolve h (Script.opt_output options) in
  let outputFilePath :=
    if Js.endsWith ".ts" resolved then resolved
    else Script.path_join h resolved "IEntity.ts" in
  sourceFiles ≠ [] →
  snd (Aggregate.main h options) = Some tt
  ∧ createdFiles (fst (Aggregate.main h options)) = [outputFilePath]
  ∧ savedFiles (fst (Aggregate.main h options)) = [outputFilePath]
  ∧ Script.CreateSourceFile outputFilePath
      (Aggregate.statements (Script.opt_prefix options) sourceFiles)
    ∈ fst (Aggregate.main h options)
  ∧ ∀ code, Script.Exit code ∉ fst (Aggregate.main h options).
Proof.
  intros sourceFiles resolved outputFilePath Hne.
  unfold Aggregate.main. fold sourceFiles. fold resolved.
  destruct sourceFiles as [|sf l] eqn:Hfiles; [done|].
  destruct (Js.endsWith ".ts" resolved) eqn:Hts; simpl negb; cbv iota;
    subst outputFilePath;
    set (stmts := Aggregate.statements _ _);
    destruct (Script.fs_existsSync h _), (Script.opt_verbose options);
    cbn -[stmts];
    (split; [done|]); (split; [done|]); (split; [done|]);
    (split; [rewrite ?elem_of_cons; tauto|]);
    intros code; rewrite ?elem_of_cons, elem_of_nil;
    intros Hin; repeat destruct Hin as [Hin|Hin]; done.
Qed.

Lemma single_file_written_witness :
  let h := Samples.host [MkSourceFile [] [Samples.User; Samples.Profile]] in
  snd (Aggregate.main h Samples.options) = Some tt
  ∧ createdFiles (fst (Aggregate.main h Samples.options))
    = ["/work/out/IEntity.ts"]
  ∧ savedFiles (fst (Aggregate.main h Samples.options))
    = ["/work/out/IEntity.ts"]
  ∧ Script.CreateSourceFile "/work/out/IEntity.ts"
      (Aggregate.statements true [MkSourceFile [] [Samples.User; Samples.Profile]])
    ∈ fst (Aggregate.main h Samples.options)
  ∧ ∀ code, Script.Exit code ∉ fst (Aggregate.main h Samples.options).
Proof.
  intros h. apply (single_file_written h Samples.options). discriminate.
Defined.

(** ** Further properties of the one-file-per-class generator *)

Lemma perFile_firstPass usePrefix sourceFiles :
  PerFile.firstPass usePrefix sourceFiles
  = foldl (collectClass usePrefix) ∅ (allClasses sourceFiles).
Proof. unfold PerFile.firstPass, allClasses. apply foldl_concat. Qed.

Lemma perFile_interfaceName usePrefix sourceFiles c n :
  c ∈ allClasses sourceFiles → resolvableName c = Some n →
  interfaceNameGet (PerFile.firstPass usePrefix sourceFiles) n
  = interfaceNameOf usePrefix n.
Proof.
  intros Hc Hn. unfold interfaceNameGet.
  rewrite perFile_firstPass, collect_lookup.
  rewrite bool_decide_eq_true_2; [done|].
  unfold classNames. apply list_elem_of_omap. by exists c.
Qed.

(** The per-file script aborts on an empty input exactly as the
    single-file script does: error message, exit status 1, and no file
    created or saved. *)
Theorem per_file_no_input_aborts (h : Script.Host) (options : Script.Options) :
  Script.addSourceFilesAtPaths h
    (Script.path_resolve h (Script.opt_input options)) = [] →
  ∃ pre,
    PerFile.main h options
    = (pre ++ [Script.ConsoleError
                 ("No files matched the input pattern: "
                    +:+ Script.path_resolve h (Script.opt_input options));
               Script.Exit 1],
       None)
    ∧ (pre = [] ∨ ∃ dir, pre = [Script.MkdirSync dir])
    ∧ createdFiles (fst (PerFile.main h options)) = []
    ∧ savedFiles (fst (PerFile.main h options)) = [].
Proof.
  intros Hnone. unfold PerFile.main. rewrite Hnone. simpl.
  destruct (Script.fs_existsSync h _); simpl.
  - exists []. by repeat split; [left|..].
  - eexists [_]. repeat split; [right; by eexists|..]; done.
Qed.

Lemma per_file_no_input_aborts_witness :
  ∃ pre,
    PerFile.main (Samples.host []) Samples.dirOptions
    = (pre ++ [Script.ConsoleError
                 "No files matched the input pattern: /work/src/entities/*.ts";
               Script.Exit 1],
       None)
    ∧ (pre = [] ∨ ∃ dir, pre = [Script.MkdirSync dir])
    ∧ createdFiles (fst (PerFile.main (Samples.host []) Samples.dirOptions)) = []
    ∧ savedFiles (fst (PerFile.main (Samples.host []) Samples.dirOptions)) = [].
Proof.
  apply (per_file_no_input_aborts (Samples.host []) Samples.dirOptions).
  reflexivity.
Defined.

Lemma savedFiles_concat ts :
  savedFiles (concat ts) = concat (map savedFiles ts).
Proof.
  induction ts as [|t ts IH]; simpl; [done|].
  unfold savedFiles in *. by rewrite omap_app, IH.
Qed.

Lemma createdFiles_concat ts :
  createdFiles (concat ts) = concat (map createdFiles ts).
Proof.
  induction ts as [|t ts IH]; simpl; [done|].
  unfold createdFiles in *. by rewrite omap_app, IH.
Qed.

Lemma perFile_generateClass_trace h im outputDir verbose c :
  (∀ n, resolvableName c = Some n →
        Script.project_hasSourceFile h
          (Script.path_join h outputDir (interfaceNameGet im n +:+ ".ts"))
        = false) →
  snd (PerFile.generateClass h im outputDir verbose c) = Some tt
  ∧ ∀ files, (files = savedFiles ∨ files = createdFiles) →
      files (fst (PerFile.generateClass h im outputDir verbose c))
      = match resolvableName c with
        | Some n =>
            [Script.path_join h outputDir (interfaceNameGet im n +:+ ".ts")]
        | None => []
        end.
Proof.
  unfold PerFile.generateClass, resolvableName.
  destruct (class_getName c) as [n|]; [|split; [done|by intros ? [->| ->]]].
  destruct (Js.truthy n); [|split; [done|by intros ? [->| ->]]].
  intros Hfree. specialize (Hfree n eq_refl).
  cbn -[PerFile.computeImports PerFile.interfaceStructureOf Nat.ltb
        Script.replacesInput].
  unfold Script.replacesInput.
  change (is_name (PerFile.interfaceStructureOf im n c))
    with (interfaceNameGet im n).
  rewrite Hfree.
  destruct (Nat.ltb _ _), verbose; cbn -[PerFile.computeImports];
    (split; [done|by intros ? [->| ->]]).
Qed.

Lemma elem_of_classNames cs c n :
  c ∈ cs → resolvableName c = Some n → n ∈ classNames cs.
Proof. intros Hc Hn. unfold classNames. apply list_elem_of_omap. by exists c. Qed.

Lemma class_files_concat {E} (gen : ClassDeclaration → list E)
    (path : string → string) (pick : list E → list string)
    (cs : list ClassDeclaration) :
  (∀ c, c ∈ cs →
        pick (gen c) = match resolvableName c with
                       | Some n => [path n]
                       | None => []
                       end) →
  concat (map pick (map gen cs)) = map path (classNames cs).
Proof.
  induction cs as [|c cs IH]; intros Hgen; simpl; [done|].
  rewrite (Hgen c) by apply list_elem_of_here.
  rewrite IH by (intros c' Hc'; by apply Hgen, list_elem_of_further).
  unfold classNames. simpl. by destruct (resolvableName c).
Qed.

(** On a non-empty input none of whose generated paths is the path of a
    source file of the project, the per-file script never exits, and it
    creates and then saves one file for every class that has a name, in unit
    order and declaration order: the file named after the interface in the
    output directory.  Two classes of the same name write the same path
    twice. *)
Theorem per_file_one_file_per_class (h : Script.Host) (options : Script.Options) :
  let sourceFiles :=
    Script.addSourceFilesAtPaths h
      (Script.path_resolve h (Script.opt_input options)) in
  let outputDir := Script.path_resolve h (Script.opt_output options) in
  let fileOf n :=
    Script.path_join h outputDir
      (interfaceNameOf (Script.opt_prefix options) n +:+ ".ts") in
  sourceFiles ≠ [] →
  (∀ n, n ∈ classNames (allClasses sourceFiles) →
        Script.project_hasSourceFile h (fileOf n) = false) →
  snd (PerFile.main h options) = Some tt
  ∧ createdFiles (fst (PerFile.main h options))
    = map fileOf (classNames (allClasses sourceFiles))
  ∧ savedFiles (fst (PerFile.main h options))
    = map fileOf (classNames (allClasses sourceFiles)).
Proof.
  intros sourceFiles outputDir fileOf Hne Hfree.
  unfold PerFile.main. fold sourceFiles. fold outputDir.
  set (im := PerFile.firstPass _ _).
  set (gen := PerFile.generateClass h im outputDir (Script.opt_verbose options)).
  assert (Hlen : Nat.eqb (length sourceFiles) 0 = false)
    by (destruct sourceFiles; [done|reflexivity]).
  rewrite Hlen.
  assert (Hclass : ∀ c, c ∈ allClasses sourceFiles →
    ∀ n, resolvableName c = Some n →
      Script.project_hasSourceFile h
        (Script.path_join h outputDir (interfaceNameGet im n +:+ ".ts")) = false).
  { intros c Hc n Hn. subst im.
    rewrite (perFile_interfaceName _ sourceFiles c n Hc Hn).
    apply Hfree. by apply elem_of_classNames with c. }
  rewrite (forEach_nested_ok gen sf_getClasses)
    by (intros c Hc; by apply perFile_generateClass_trace, Hclass).
  fold (allClasses sourceFiles).
  assert (Hfiles : ∀ files, (files = savedFiles ∨ files = createdFiles) →
    concat (map files (map (λ c, fst (gen c)) (allClasses sourceFiles)))
    = map fileOf (classNames (allClasses sourceFiles))).
  { intros files Hf. apply class_files_concat. intros c Hc. unfold gen.
    rewrite (proj2 (perFile_generateClass_trace h im outputDir _ c (Hclass c Hc))
               files Hf).
    destruct (resolvableName c) as [n|] eqn:Hn; [|done].
    subst im fileOf. simpl.
    by rewrite (perFile_interfaceName _ sourceFiles c n Hc Hn). }
  destruct (Script.fs_existsSync h outputDir); simpl;
    (split; [done|]);
    rewrite ?createdFiles_concat, ?savedFiles_concat;
    split; apply Hfiles; auto.
Qed.

Lemma per_file_one_file_per_class_witness :
  let h := Samples.host
             [MkSourceFile [] [Samples.Account; Samples.Anonymous];
              MkSourceFile [] [Samples.User; Samples.LegacyUser]] in
  snd (PerFile.main h Samples.dirOptions) = Some tt
  ∧ createdFiles (fst (PerFile.main h Samples.dirOptions))
    = ["/work/out/IAccount.ts"; "/work/out/IUser.ts"; "/work/out/IUser.ts"]
  ∧ savedFiles (fst (PerFile.main h Samples.dirOptions))
    = ["/work/out/IAccount.ts"; "/work/out/IUser.ts"; "/work/out/IUser.ts"].
Proof.
  intros h. apply (per_file_one_file_per_class h Samples.dirOptions).
  - discriminate.
  - reflexivity.
Defined.

(** ** The first generator *)

Lemma simple_generateClass_trace h outputDir c :
  (∀ n, resolvableName c = Some n →
        Script.project_hasSourceFile h (Script.path_join h outputDir (n +:+ ".ts"))
        = false) →
  Simple.generateClass h outputDir c
  = (match resolvableName c with
     | Some n =>
         [Script.CreateSourceFile (Script.path_join h outputDir (n +:+ ".ts"))
            [StInterface (Simple.interfaceStructureOf n c)];
          Script.SaveSync (Script.path_join h outputDir (n +:+ ".ts"))]
     | None => []
     end, Some tt).
Proof.
  unfold Simple.generateClass, resolvableName.
  destruct (class_getName c) as [n|]; [|done].
  destruct (Js.truthy n); [|done].
  intros Hfree. specialize (Hfree n eq_refl).
  cbn -[Simple.interfaceStructureOf Script.replacesInput].
  unfold Script.replacesInput. by rewrite Hfree.
Qed.

(** The first generator has no check of its input and never exits: on any
    input, the empty one included, none of whose generated paths is the path
    of a source file of the project, it ends normally, having created and
    saved one file per named class, in order.  The file is named after the
    class, the single interface in it after [I] followed by the class
    name. *)
Theorem simple_one_file_per_class (h : Script.Host) (options : Script.Options) :
  let sourceFiles :=
    Script.addSourceFilesAtPaths h
      (Script.path_resolve h (Script.opt_input options) +:+ "/**/*.ts") in
  let outputDir := Script.path_resolve h (Script.opt_output options) in
  let fileOf n := Script.path_join h outputDir (n +:+ ".ts") in
  (∀ n, n ∈ classNames (allClasses sourceFiles) →
        Script.project_hasSourceFile h (fileOf n) = false) →
  snd (Simple.main h options) = Some tt
  ∧ createdFiles (fst (Simple.main h options))
    = map fileOf (classNames (allClasses sourceFiles))
  ∧ savedFiles (fst (Simple.main h options))
    = map fileOf (classNames (allClasses sourceFiles))
  ∧ ∀ p stmts,
      Script.CreateSourceFile p stmts ∈ fst (Simple.main h options) →
      ∃ c n, c ∈ allClasses sourceFiles ∧ class_getName c = Some n
             ∧ p = fileOf n
             ∧ stmts = [StInterface (Simple.interfaceStructureOf n c)]
             ∧ is_name (Simple.interfaceStructureOf n c) = "I" +:+ n.
Proof.
  intros sourceFiles outputDir fileOf Hfree.
  unfold Simple.main. fold sourceFiles. fold outputDir.
  set (gen := Simple.generateClass h outputDir).
  assert (Hclass : ∀ c, c ∈ allClasses sourceFiles →
    ∀ n, resolvableName c = Some n →
      Script.project_hasSourceFile h (Script.path_join h outputDir (n +:+ ".ts"))
      = false).
  { intros c Hc n Hn. apply Hfree. by apply elem_of_classNames with c. }
  rewrite (forEach_nested_ok gen sf_getClasses)
    by (intros c Hc; unfold gen;
        by rewrite simple_generateClass_trace by apply (Hclass c Hc)).
  fold (allClasses sourceFiles).
  assert (Hfiles : ∀ files, (files = savedFiles ∨ files = createdFiles) →
    concat (map files (map (λ c, fst (gen c)) (allClasses sourceFiles)))
    = map fileOf (classNames (allClasses sourceFiles))).
  { intros files Hf. apply class_files_concat. intros c Hc. unfold gen.
    rewrite simple_generateClass_trace by apply (Hclass c Hc). simpl.
    destruct (resolvableName c); by destruct Hf as [-> | ->]. }
  assert (Hcreate : ∀ p stmts,
    Script.CreateSourceFile p stmts
      ∈ concat (map (λ c, fst (gen c)) (allClasses sourceFiles)) →
    ∃ c n, c ∈ allClasses sourceFiles ∧ class_getName c = Some n
           ∧ p = fileOf n
           ∧ stmts = [StInterface (Simple.interfaceStructureOf n c)]
           ∧ is_name (Simple.interfaceStructureOf n c) = "I" +:+ n).
  { intros p stmts Hin. apply list_elem_of_In, in_concat in Hin as (t & Ht & Hin).
    apply in_map_iff in Ht as (c & <- & Hc). apply list_elem_of_In in Hc, Hin.
    unfold gen in Hin.
    rewrite simple_generateClass_trace in Hin by apply (Hclass c Hc).
    simpl in Hin.
    destruct (resolvableName c) as [n|] eqn:Hn; [|by apply elem_of_nil in Hin].
    exists c, n. split; [done|].
    assert (class_getName c = Some n) as Hname.
    { unfold resolvableName in Hn. destruct (class_getName c) as [k|]; [|done].
      destruct (Js.truthy k); congruence. }
    split; [done|].
    apply elem_of_cons in Hin as [Hin|Hin]; [by inversion Hin|].
    apply list_elem_of_singleton in Hin. discriminate Hin. }
  destruct (Script.fs_existsSync h outputDir); simpl;
    (split; [done|]);
    rewrite ?createdFiles_concat, ?savedFiles_concat;
    (split; [apply Hfiles; auto|]); (split; [apply Hfiles; auto|]);
    intros p stmts Hin; apply Hcreate; [done|].
  apply elem_of_cons in Hin as [Hin|Hin]; [discriminate Hin|done].
Qed.

Lemma simple_one_file_per_class_witness :
  let h := Samples.host
             [MkSourceFile [] [Samples.User; Samples.Anonymous];
              MkSourceFile [] [Samples.Profile]] in
  snd (Simple.main h Samples.dirOptions) = Some tt
  ∧ createdFiles (fst (Simple.main h Samples.dirOptions))
    = ["/work/out/User.ts"; "/work/out/Profile.ts"]
  ∧ savedFiles (fst (Simple.main h Samples.dirOptions))
    = ["/work/out/User.ts"; "/work/out/Profile.ts"]
  ∧ ∀ p stmts,
      Script.CreateSourceFile p stmts ∈ fst (Simple.main h Samples.dirOptions) →
      ∃ c n, c ∈ [Samples.User; Samples.Anonymous; Samples.Profile]
             ∧ class_getName c = Some n
             ∧ p = "/work/out/" +:+ n +:+ ".ts"
             ∧ stmts = [StInterface (Simple.interfaceStructureOf n c)]
             ∧ is_name (Simple.interfaceStructureOf n c) = "I" +:+ n.
Proof.
  intros h. apply (simple_one_file_per_class h Samples.dirOptions).
  reflexivity.
Defined.

(** For a class without relation markers the per-file generator, with
    prefixing on, produces the very interface of the first generator. *)
Theorem per_file_extends_simple (sourceFiles : list SourceFile)
    (c : ClassDeclaration) (n : string) :
  c ∈ allClasses sourceFiles →
  resolvableName c = Some n →
  (∀ p, p ∈ class_getProperties c → ¬ relationAnnotated p) →
  PerFile.interfaceStructureOf (PerFile.firstPass true sourceFiles) n c
  = Simple.interfaceStructureOf n c.
Proof.
  intros Hc Hn Hfree.
  unfold PerFile.interfaceStructureOf, Simple.interfaceStructureOf.
  rewrite (perFile_interfaceName true sourceFiles c n Hc Hn). simpl.
  f_equal. induction (class_getProperties c) as [|p props IH]; simpl; [done|].
  f_equal.
  - unfold PerFile.propertySignature, PerFile.propertyType.
    pose proof (Hfree p (list_elem_of_here _ _)) as Hp.
    apply isPlain_spec in Hp. unfold isPlain in Hp.
    by destruct (hasRelation _).
  - apply IH. intros q Hq. by apply Hfree, list_elem_of_further.
Qed.

Lemma per_file_extends_simple_witness :
  PerFile.interfaceStructureOf
    (PerFile.firstPass true [MkSourceFile [] [Samples.User; Samples.Profile]])
    "Profile" Samples.Profile
  = Simple.interfaceStructureOf "Profile" Samples.Profile.
Proof.
  apply (per_file_extends_simple
           [MkSourceFile [] [Samples.User; Samples.Profile]]
           Samples.Profile "Profile").
  - apply list_elem_of_further, list_elem_of_here.
  - reflexivity.
  - intros p Hp Hrel. apply list_elem_of_singleton in Hp. subst p.
    apply hasRelation_spec in Hrel. discriminate Hrel.
Defined.

(** ** The single-file generator without enums *)

Lemma foldl_ext_in {A B} (f g : A → B → A) (l : list B) (a : A) :
  (∀ a x, x ∈ l → f a x = g a x) → foldl f a l = foldl g a l.
Proof.
  revert a. induction l as [|x l IH]; intros a Hfg; simpl; [done|].
  rewrite Hfg by apply list_elem_of_here.
  apply IH. intros a' y Hy. by apply Hfg, list_elem_of_further.
Qed.

Lemma legacy_firstPass usePrefix sourceFiles :
  Legacy.firstPass usePrefix sourceFiles
  = Aggregate.interfaceMap (Aggregate.firstPass usePrefix sourceFiles).
Proof.
  rewrite firstPass_interfaceMap. unfold Legacy.firstPass, allClasses.
  apply foldl_concat.
Qed.

Lemma legacy_propertyType st prop :
  enumSymbol (prop_getType prop) = None →
  Legacy.propertyType (Aggregate.interfaceMap st) prop
  = Aggregate.propertyType st prop.
Proof.
  intros Henum. unfold Legacy.propertyType, Aggregate.propertyType.
  rewrite enumRewrite_enumSymbol, Henum. unfold Aggregate.promiseNode.
  destruct (hasRelation _); [|done].
  destruct (prop_getTypeNode prop) as [tn|]; [|done].
  by destruct (Js.includes _ _).
Qed.

(** The enum-aware single-file generator is a conservative extension of
    the earlier one: when no property of the input has an enum type, both
    produce the same sequence of interfaces. *)
Theorem enum_support_conservative (usePrefix : bool)
    (sourceFiles : list SourceFile) :
  (∀ c, c ∈ allClasses sourceFiles → enumFree c) →
  Legacy.secondPass (Legacy.firstPass usePrefix sourceFiles) sourceFiles
  = Aggregate.secondPass (Aggregate.firstPass usePrefix sourceFiles) sourceFiles.
Proof.
  intros Hfree. rewrite legacy_firstPass.
  set (st := Aggregate.firstPass usePrefix sourceFiles).
  unfold Legacy.secondPass, Aggregate.secondPass.
  rewrite (foldl_concat (Legacy.generateClass _) sf_getClasses).
  rewrite (foldl_concat (Aggregate.generateClass _) sf_getClasses).
  fold (allClasses sourceFiles). apply foldl_ext_in.
  intros acc c Hc. unfold Legacy.generateClass, Aggregate.generateClass.
  destruct (class_getName c) as [n|]; [|done].
  destruct (Js.truthy n); [|done].
  assert (Hprops :
    foldl (Legacy.pushProperty (Aggregate.interfaceMap st)) ([], [])
          (class_getProperties c)
    = foldl (Aggregate.pushProperty st) ([], []) (class_getProperties c)).
  { apply foldl_ext_in. intros a p Hp.
    unfold Legacy.pushProperty, Aggregate.pushProperty,
      Legacy.propertySignature, Aggregate.propertySignature.
    by rewrite legacy_propertyType by apply (Hfree c Hc p Hp). }
  by rewrite Hprops.
Qed.

Lemma enum_support_conservative_witness :
  let sourceFiles := [MkSourceFile [] [Samples.Order; Samples.Customer]] in
  Legacy.secondPass (Legacy.firstPass true sourceFiles) sourceFiles
  = Aggregate.secondPass (Aggregate.firstPass true sourceFiles) sourceFiles.
Proof.
  intros sourceFiles. apply (enum_support_conservative true sourceFiles).
  intros c Hc p Hp.
  apply elem_of_cons in Hc as [->|Hc].
  - apply elem_of_cons in Hp as [->|Hp]; [reflexivity|].
    apply list_elem_of_singleton in Hp. by subst p.
  - apply list_elem_of_singleton in Hc. subst c.
    apply list_elem_of_singleton in Hp. by subst p.
Defined.

(** ** The regular expressions of the imports computation *)

Lemma append_cons c (a b : string) : String c a +:+ b = String c (a +:+ b).
Proof. reflexivity. Qed.

Lemma append_nil_r (s : string) : s +:+ "" = s.
Proof.
  induction s as [|c s IH]; [done|]. by rewrite append_cons, IH.
Qed.

Lemma append_assoc (a b c : string) : (a +:+ b) +:+ c = a +:+ (b +:+ c).
Proof.
  induction a as [|x a IH]; [done|]. by rewrite !append_cons, IH.
Qed.

Lemma length_append (a b : string) :
  String.length (a +:+ b) = String.length a + String.length b.
Proof.
  induction a as [|x a IH]; [done|]. rewrite append_cons. simpl. by rewrite IH.
Qed.

Lemma dropPrefix_Some p s r : Js.dropPrefix p s = Some r → s = p +:+ r.
Proof.
  revert s. induction p as [|a p IH]; intros s; simpl.
  { intros [= ->]. reflexivity. }
  destruct s as [|b s]; [done|].
  destruct (Ascii.eqb_spec a b) as [->|]; [|done].
  intros H. by rewrite append_cons, (IH _ H).
Qed.

Lemma dropPrefix_app p r : Js.dropPrefix p (p +:+ r) = Some r.
Proof.
  induction p as [|a p IH]; [done|].
  rewrite append_cons. simpl. by rewrite Ascii.eqb_refl.
Qed.

Lemma noLt_append a b : noLt (a +:+ b) = noLt a && noLt b.
Proof.
  induction a as [|x a IH]; [done|]. rewrite append_cons. simpl.
  rewrite IH. by destruct (negb _).
Qed.

Lemma wordChar_special c :
  PerFile.isWordChar c = true → c ≠ "<"%char ∧ c ≠ "["%char ∧ c ≠ ">"%char.
Proof. intros Hc. repeat split; intros ->; discriminate Hc. Qed.

Lemma allWord_noLt w : allWord w = true → noLt w = true.
Proof.
  induction w as [|c w IH]; simpl; [done|].
  intros [Hc Hw]%andb_true_iff. rewrite IH by done.
  destruct (wordChar_special c Hc) as (Hlt & _ & _).
  by destruct (Ascii.eqb_spec c "<").
Qed.

Lemma startsWith_Promise_noLt s :
  noLt s = true → Js.dropPrefix "Promise<" s = None.
Proof.
  intros Hs. destruct (Js.dropPrefix "Promise<" s) as [r|] eqn:E; [|done].
  apply dropPrefix_Some in E. subst s. rewrite noLt_append in Hs.
  discriminate Hs.
Qed.

Lemma startsWith_word c s lit x :
  PerFile.isWordChar c = true → PerFile.isWordChar x = false →
  Js.dropPrefix (String x lit) (String c s) = None.
Proof.
  intros Hc Hx. simpl. destruct (Ascii.eqb_spec x c) as [->|]; [|done].
  congruence.
Qed.

Lemma spanWord_spec s w r :
  PerFile.spanWord s = (w, r) → s = w +:+ r ∧ allWord w = true ∧ wordEnd r.
Proof.
  revert w r. induction s as [|c s IH]; intros w r; simpl.
  - by intros [= <- <-].
  - destruct (PerFile.isWordChar c) eqn:Hc.
    + destruct (PerFile.spanWord s) as [w' r'] eqn:E. intros [= <- <-].
      destruct (IH _ _ eq_refl) as (-> & Hw & Hr).
      rewrite append_cons. simpl. by rewrite Hc.
    + intros [= <- <-]. by simpl.
Qed.

Lemma spanWord_app w r :
  allWord w = true → wordEnd r → PerFile.spanWord (w +:+ r) = (w, r).
Proof.
  intros Hw Hr. induction w as [|c w IH].
  - change ("" +:+ r) with r. destruct r as [|x r]; [done|].
    simpl in *. by rewrite Hr.
  - simpl in Hw. apply andb_true_iff in Hw as [Hc Hw].
    rewrite append_cons. simpl. by rewrite Hc, IH.
Qed.

Lemma removeFrom_word w r :
  allWord w = true → noLt r = true →
  PerFile.removeFrom 0 (w +:+ r) = w +:+ PerFile.removeFrom 0 r.
Proof.
  intros Hw Hr. induction w as [|c w IH]; [done|].
  pose proof Hw as Hcw. simpl in Hcw. apply andb_true_iff in Hcw as [Hc Hw'].
  rewrite !append_cons.
  cbn [PerFile.removeFrom]. unfold Js.startsWith.
  rewrite (startsWith_word c (w +:+ r) "]" "[") by done.
  rewrite (startsWith_Promise_noLt (String c (w +:+ r))).
  - rewrite (startsWith_word c (w +:+ r) "" ">") by done.
    by rewrite IH.
  - rewrite <- append_cons.
    by rewrite noLt_append, (allWord_noLt _ Hw), Hr.
Qed.

Lemma matchName_spec s m :
  PerFile.matchName s = Some m →
  ∃ w t, m = w +:+ t ∧ identifier w ∧ isTail t.
Proof.
  unfold PerFile.matchName.
  destruct (PerFile.spanWord s) as [w r1] eqn:E.
  apply spanWord_spec in E as (_ & Hw & _).
  destruct (Js.truthy w) eqn:Ht; [|done].
  apply truthy_nonempty in Ht. unfold PerFile.optLit.
  destruct (Js.dropPrefix "[]" r1) as [r2|];
    [destruct (Js.dropPrefix ">" r2) | destruct (Js.dropPrefix ">" r1)];
    intros [= <-]; exists w; eexists; (split; [reflexivity|]);
    (split; [by split|]); unfold isTail; simpl; tauto.
Qed.

Lemma matchAt_spec s m :
  PerFile.matchAt s = Some m →
  ∃ w t, (m = w +:+ t ∨ m = "Promise<" +:+ w +:+ t) ∧ identifier w ∧ isTail t.
Proof.
  unfold PerFile.matchAt.
  destruct (Js.dropPrefix "Promise<" s) as [r|].
  - destruct (PerFile.matchName r) as [m'|] eqn:E.
    + intros [= <-]. apply matchName_spec in E as (w & t & -> & Hw & Ht).
      exists w, t. split; [by right|done].
    + intros (w & t & -> & Hw & Ht)%matchName_spec. exists w, t.
      split; [by left|done].
  - intros (w & t & -> & Hw & Ht)%matchName_spec. exists w, t.
    split; [by left|done].
Qed.

Lemma cleanTypeName_match w t :
  identifier w → isTail t →
  PerFile.cleanTypeName (w +:+ t) = w
  ∧ PerFile.cleanTypeName ("Promise<" +:+ w +:+ t) = w.
Proof.
  intros [_ Hw] Ht. unfold PerFile.cleanTypeName.
  assert (Hclean : PerFile.removeFrom 0 (w +:+ t) = w).
  { rewrite removeFrom_word; [|done|by destruct Ht as [->|[->|[->| ->]]]].
    destruct Ht as [->|[->|[->| ->]]]; simpl; apply append_nil_r. }
  split; [done|]. by rewrite <- Hclean at 2.
Qed.

Lemma matchFrom_elem s k m :
  m ∈ PerFile.matchFrom k s → ∃ s', PerFile.matchAt s' = Some m.
Proof.
  revert k. induction s as [|c s IH]; intros k; simpl.
  - by intros ?%elem_of_nil.
  - destruct k as [|k]; [|apply IH].
    destruct (PerFile.matchAt (String c s)) as [m'|] eqn:E; [|apply IH].
    intros [->|Hin]%elem_of_cons; [by eexists|]. by apply IH in Hin.
Qed.

(** Every candidate the imports computation extracts from a type text is,
    once cleaned, an identifier: whatever the text, stripping the array and
    [Promise] syntax from a match leaves a non-empty name made of letters,
    digits and underscores. *)
Theorem cleaned_match_is_identifier (propType typeName : string) :
  typeName ∈ PerFile.matchTypeNames propType →
  identifier (PerFile.cleanTypeName typeName).
Proof.
  intros (s' & Hs')%matchFrom_elem.
  apply matchAt_spec in Hs' as (w & t & Hm & Hw & Ht).
  destruct (cleanTypeName_match w t Hw Ht) as [H1 H2].
  destruct Hm as [-> | ->]; by rewrite ?H1, ?H2.
Qed.

Lemma cleaned_match_is_identifier_witness :
  identifier (PerFile.cleanTypeName "Promise<ICustomer>").
Proof.
  apply (cleaned_match_is_identifier "Promise<ICustomer>").
  vm_compute. apply list_elem_of_here.
Defined.

Lemma matchFrom_skip s k :
  (String.length s ≤ k)%nat → PerFile.matchFrom k s = [].
Proof.
  revert k. induction s as [|c s IH]; intros k Hk; [done|].
  simpl in *. destruct k as [|k]; [lia|]. apply IH. lia.
Qed.

Lemma matchFrom_whole s :
  PerFile.matchAt s = Some s → PerFile.matchTypeNames s = [s].
Proof.
  intros Hs. unfold PerFile.matchTypeNames. destruct s as [|c s]; [done|].
  cbn [PerFile.matchFrom]. rewrite Hs. f_equal.
  apply matchFrom_skip. simpl. lia.
Qed.

Lemma isTail_wordEnd_noLt t : isTail t → wordEnd t ∧ noLt t = true.
Proof. by intros [->|[->|[->| ->]]]. Qed.

Lemma matchName_word w t :
  identifier w → isTail t → PerFile.matchName (w +:+ t) = Some (w +:+ t).
Proof.
  intros [Hne Hw] Ht. unfold PerFile.matchName.
  rewrite spanWord_app by (done || by apply isTail_wordEnd_noLt).
  apply truthy_nonempty in Hne. rewrite Hne.
  by destruct Ht as [->|[->|[->| ->]]].
Qed.

Lemma matchAt_word w t :
  identifier w → isTail t → PerFile.matchAt (w +:+ t) = Some (w +:+ t).
Proof.
  intros Hw Ht. unfold PerFile.matchAt.
  rewrite startsWith_Promise_noLt; [by apply matchName_word|].
  rewrite noLt_append, (allWord_noLt w) by apply Hw.
  by apply isTail_wordEnd_noLt.
Qed.

Lemma matchAt_promise w t :
  identifier w → isTail t →
  PerFile.matchAt ("Promise<" +:+ w +:+ t) = Some ("Promise<" +:+ w +:+ t).
Proof.
  intros Hw Ht. unfold PerFile.matchAt.
  by rewrite dropPrefix_app, matchName_word.
Qed.

Lemma relation_forms_match (name text : string) :
  identifier name →
  text = name ∨ text = name +:+ "[]" ∨ text = "Promise<" +:+ name +:+ ">" →
  PerFile.matchTypeNames text = [text] ∧ PerFile.cleanTypeName text = name.
Proof.
  intros Hname Htext.
  assert (T0 : isTail "") by (by left).
  assert (T1 : isTail "[]") by (right; by left).
  assert (T2 : isTail ">") by (right; right; by left).
  destruct Htext as [->|[->| ->]].
  - rewrite <- (append_nil_r name) at 1 2 3. split.
    + apply matchFrom_whole. by apply matchAt_word.
    + by apply cleanTypeName_match.
  - split.
    + apply matchFrom_whole. by apply matchAt_word.
    + by apply cleanTypeName_match.
  - split.
    + apply matchFrom_whole. by apply matchAt_promise.
    + by apply cleanTypeName_match.
Qed.

(** The three forms under which the rewriter writes a relation to the
    interface [name] (the name, the name followed by [[]], the name inside
    [Promise<...>]) are each matched as a whole by the first regular
    expression, and cleaned back to [name] by the second. *)
Theorem relation_type_round_trip (name text : string) :
  identifier name →
  text = name ∨ text = name +:+ "[]" ∨ text = "Promise<" +:+ name +:+ ">" →
  PerFile.matchTypeNames text = [text]
  ∧ map PerFile.cleanTypeName (PerFile.matchTypeNames text) = [name].
Proof.
  intros Hname Htext.
  destruct (relation_forms_match name text Hname Htext) as [Hmatch Hclean].
  split; [done|]. rewrite Hmatch. simpl. by rewrite Hclean.
Qed.

Lemma relation_type_round_trip_witness :
  PerFile.matchTypeNames "Promise<ICustomer>" = ["Promise<ICustomer>"]
  ∧ map PerFile.cleanTypeName (PerFile.matchTypeNames "Promise<ICustomer>")
    = ["ICustomer"].
Proof.
  apply (relation_type_round_trip "ICustomer" "Promise<ICustomer>").
  - split; [discriminate|reflexivity].
  - right. right. reflexivity.
Defined.

(** *** The import set *)

Lemma set_has_elem x (l : list string) : Js.set_has x l = true ↔ x ∈ l.
Proof.
  unfold Js.set_has. rewrite existsb_exists. split.
  - intros (y & Hy & ->%String.eqb_eq). by apply list_elem_of_In.
  - intros Hx. exists x. split; [by apply list_elem_of_In|apply String.eqb_refl].
Qed.

Lemma set_add_mono x y (l : list string) : y ∈ l → y ∈ Js.set_add x l.
Proof.
  intros Hy. unfold Js.set_add. destruct (Js.set_has x l); [done|].
  apply elem_of_app. by left.
Qed.

Lemma set_add_self x (l : list string) : x ∈ Js.set_add x l.
Proof.
  unfold Js.set_add. destruct (Js.set_has x l) eqn:E.
  - by apply set_has_elem.
  - apply elem_of_app. right. apply list_elem_of_here.
Qed.

Lemma set_add_NoDup x (l : list string) : NoDup l → NoDup (Js.set_add x l).
Proof.
  intros Hl. unfold Js.set_add. destruct (Js.set_has x l) eqn:E; [done|].
  apply NoDup_app. split; [done|]. split; [|apply NoDup_singleton].
  intros y Hy ->%list_elem_of_singleton.
  apply set_has_elem in Hy. congruence.
Qed.

(** An invariant of the imports kept by both loops of the computation. *)
Lemma computeImports_invariant (P : list string → Prop)
    (im : gmap string string) interfaceName props :
  P [] →
  (∀ x l, P l → PerFile.isImport im interfaceName x = true → P (Js.set_add x l)) →
  P (PerFile.computeImports im interfaceName props).
Proof.
  intros Hnil Hadd. unfold PerFile.computeImports.
  generalize ([] : list string) Hnil.
  induction props as [|p props IH]; intros l Hl; simpl; [done|].
  apply IH. generalize l Hl.
  induction (PerFile.matchTypeNames (ps_type p)) as [|t names IHn];
    intros l' Hl'; simpl; [done|].
  apply IHn. destruct (PerFile.isImport _ _ _) eqn:E; [|done].
  by apply Hadd.
Qed.

(** Each import is listed once. *)
Theorem imports_distinct (im : gmap string string) (interfaceName : string)
    (props : list PropertySignatureStructure) :
  NoDup (PerFile.computeImports im interfaceName props).
Proof.
  apply computeImports_invariant; [constructor|].
  intros x l Hl _. by apply set_add_NoDup.
Qed.

Lemma computeImports_keys_witness :
  let im :=
    PerFile.firstPass false [MkSourceFile [] [Samples.Account; Samples.LegacyUser]] in
  is_Some (im !! "User") ∧ "User" ≠ "Account".
Proof.
  intros im.
  apply (computeImports_keys im "Account"
           (is_properties (PerFile.interfaceStructureOf im "Account" Samples.Account))).
  vm_compute. apply list_elem_of_here.
Defined.

Lemma computeImports_hit (im : gmap string string) interfaceName props sig t :
  sig ∈ props → t ∈ PerFile.matchTypeNames (ps_type sig) →
  PerFile.isImport im interfaceName (PerFile.cleanTypeName t) = true →
  PerFile.cleanTypeName t ∈ PerFile.computeImports im interfaceName props.
Proof.
  intros Hsig Ht Himp. unfold PerFile.computeImports.
  set (inner := fun imports typeName =>
         if PerFile.isImport im interfaceName (PerFile.cleanTypeName typeName)
         then Js.set_add (PerFile.cleanTypeName typeName) imports
         else imports).
  assert (Hinner_mono : ∀ names l y, y ∈ l → y ∈ foldl inner l names).
  { induction names as [|u names IH]; intros l y Hy; simpl; [done|].
    apply IH. unfold inner.
    destruct (PerFile.isImport im interfaceName (PerFile.cleanTypeName u)); [|done].
    by apply set_add_mono. }
  assert (Hinner_hit : ∀ names l, t ∈ names →
            PerFile.cleanTypeName t ∈ foldl inner l names).
  { induction names as [|u names IH]; intros l Hin; simpl.
    - by apply elem_of_nil in Hin.
    - apply elem_of_cons in Hin as [<-|Hin]; [|by apply IH].
      apply Hinner_mono. unfold inner. rewrite Himp. apply set_add_self. }
  generalize ([] : list string).
  induction props as [|p props IH]; intros l; simpl.
  - by apply elem_of_nil in Hsig.
  - apply elem_of_cons in Hsig as [<-|Hsig]; [|by apply IH].
    clear IH. fold inner.
    assert (Hhere : PerFile.cleanTypeName t
                    ∈ foldl inner l (PerFile.matchTypeNames (ps_type sig)))
      by (by apply Hinner_hit).
    revert Hhere. generalize (foldl inner l (PerFile.matchTypeNames (ps_type sig))).
    induction props as [|q props IH]; intros l' Hl'; simpl; [done|].
    apply IH. by apply Hinner_mono.
Qed.

Lemma perFile_relation_type (im : gmap string string) prop n :
  relationAnnotated prop → relationTarget prop = Some n →
  let r := relatedInterfaceName im n in
  PerFile.propertyType im prop = r
  ∨ PerFile.propertyType im prop = r +:+ "[]"
  ∨ PerFile.propertyType im prop = "Promise<" +:+ r +:+ ">".
Proof.
  intros Hrel Htarget r. apply hasRelation_spec in Hrel.
  unfold PerFile.propertyType. rewrite Hrel.
  unfold relationTarget, Aggregate.promiseNode in Htarget.
  destruct (prop_getTypeNode prop) as [tn|].
  - destruct (Js.includes "Promise" (tn_getText tn)).
    + unfold PerFile.lazyRelationType.
      destruct (type_getTypeArguments (tn_getType tn)) as [|t ts]; [done|].
      rewrite targetName_symbolName in Htarget.
      destruct (symbolName t) as [k|]; [|done].
      destruct (Js.truthy k); [|done]. injection Htarget as ->. by right; right.
    + unfold PerFile.eagerRelationType.
      rewrite targetName_symbolName in Htarget.
      destruct (type_getArrayElementType (prop_getType prop)); simpl in Htarget;
        destruct (symbolName _) as [k|]; try done;
        destruct (Js.truthy k); try done; injection Htarget as ->;
        destruct (type_isArray _); auto.
  - unfold PerFile.eagerRelationType.
    rewrite targetName_symbolName in Htarget.
    destruct (type_getArrayElementType (prop_getType prop)); simpl in Htarget;
      destruct (symbolName _) as [k|]; try done;
      destruct (Js.truthy k); try done; injection Htarget as ->;
      destruct (type_isArray _); auto.
Qed.

(** With prefixing off, the imports of a generated interface contain
    every relation target that is a class of the input, as long as its name
    is an identifier and differs from the name of the class itself. *)
Theorem imports_without_prefix (sourceFiles : list SourceFile)
    (c : ClassDeclaration) (className : string) (prop : PropertyDeclaration)
    (target : string) :
  let im := PerFile.firstPass false sourceFiles in
  let interfaceStructure := PerFile.interfaceStructureOf im className c in
  c ∈ allClasses sourceFiles →
  resolvableName c = Some className →
  prop ∈ class_getProperties c →
  relationAnnotated prop →
  relationTarget prop = Some target →
  target ∈ classNames (allClasses sourceFiles) →
  identifier target →
  target ≠ className →
  is_name interfaceStructure = className
  ∧ target ∈ PerFile.computeImports im (is_name interfaceStructure)
               (is_properties interfaceStructure).
Proof.
  intros im iface Hc Hn Hp Hrel Htarget Hin Hid Hne.
  assert (Hname : is_name iface = className).
  { subst iface im. simpl.
    by rewrite (perFile_interfaceName false sourceFiles c className). }
  split; [done|]. rewrite Hname.
  assert (Hkey : im !! target = Some target).
  { subst im. rewrite perFile_firstPass, collect_lookup.
    by rewrite bool_decide_eq_true_2. }
  assert (Hr : relatedInterfaceName im target = target).
  { apply relatedInterfaceName_mapped; [done|apply Hid]. }
  pose proof (perFile_relation_type im prop target Hrel Htarget) as Hty.
  simpl in Hty. rewrite Hr in Hty.
  destruct (relation_forms_match target (PerFile.propertyType im prop) Hid Hty)
    as [Hmatch Hclean].
  rewrite <- Hclean.
  apply computeImports_hit with (PerFile.propertySignature im prop).
  - subst iface. simpl. by apply list_elem_of_fmap_2.
  - change (ps_type (PerFile.propertySignature im prop))
      with (PerFile.propertyType im prop).
    rewrite Hmatch. apply list_elem_of_here.
  - rewrite Hclean. unfold PerFile.isImport. rewrite Hkey.
    rewrite bool_decide_eq_true_2 by done. simpl.
    apply negb_true_iff, String.eqb_neq. done.
Qed.

Lemma imports_without_prefix_witness :
  let sourceFiles := [MkSourceFile [] [Samples.Account; Samples.LegacyUser]] in
  let im := PerFile.firstPass false sourceFiles in
  let interfaceStructure :=
    PerFile.interfaceStructureOf im "Account" Samples.Account in
  is_name interfaceStructure = "Account"
  ∧ "User" ∈ PerFile.computeImports im (is_name interfaceStructure)
               (is_properties interfaceStructure).
Proof.
  intros sourceFiles im interfaceStructure.
  apply (imports_without_prefix sourceFiles Samples.Account "Account"
           (Samples.property "owner" ["ManyToOne"] (Samples.named "User")) "User").
  - apply list_elem_of_here.
  - reflexivity.
  - apply list_elem_of_further, list_elem_of_here.
  - apply hasRelation_spec. reflexivity.
  - reflexivity.
  - apply list_elem_of_further, list_elem_of_here.
  - split; [discriminate|reflexivity].
  - discriminate.
Defined.

(** *** Runs in place

    With the input directory as output directory, the file generated for
    [User] is the source file that declares it: the file is created and
    saved, and the run is followed no further, the class [Profile] of the same
    unit being left out. *)

Example simple_replaces_input :
  Simple.main (Samples.inPlaceHost [MkSourceFile [] [Samples.User; Samples.Profile]])
              Samples.inPlaceOptions
  = ([ Script.CreateSourceFile "/work/src/User.ts"
         [StInterface (Simple.interfaceStructureOf "User" Samples.User)];
       Script.SaveSync "/work/src/User.ts";
       Script.InputReplaced "/work/src/User.ts" ],
     None).
Proof. reflexivity. Qed.

Example per_file_replaces_input :
  let sourceFiles := [MkSourceFile [] [Samples.LegacyUser; Samples.Account]] in
  PerFile.main (Samples.inPlaceHost sourceFiles) Samples.inPlaceOptions
  = ([ Script.CreateSourceFile "/work/src/User.ts"
         [StInterface
            (MkInterface "User" [MkSignature "login" "string" false] true)];
       Script.SaveSync "/work/src/User.ts";
       Script.InputReplaced "/work/src/User.ts" ],
     None).
Proof. vm_compute. reflexivity. Qed.
